(** * A file-transfer protocol: [client.py] (sender) and [server.py] (receiver)

    The sender connects, writes one header [<name><SEPARATOR><size>], waits
    for [READY], streams the file in chunks of [BUFFER_SIZE] bytes and waits
    for [SUCCESS].  The receiver reads the header, answers [READY], reads
    [size] bytes into a file named after the basename, and answers
    [SUCCESS] or [FAILED].

    Python values are embedded as follows: [bytes] is a list of bytes, [str]
    a list of Unicode code points, [int] is [Z].  Exceptions are a result
    constructor, sockets and files are explicit state. *)

From Stdlib Require Import ZArith NArith Lia DecimalString.
From Stdlib Require DecimalPos.
From Stdlib.Strings Require Import Byte.
From stdpp Require Import base option list strings gmap.

Local Open Scope Z_scope.

(** ** Python values *)

Abbreviation bytes := (list byte).
Abbreviation str := (list N).

(** An ASCII literal as [bytes] and as [str]. *)
Definition b_ (s : string) : bytes := String.list_byte_of_string s.
Definition s_ (s : string) : str := map Byte.to_N (String.list_byte_of_string s).

(** Both files: [BUFFER_SIZE = 1024], [SEPARATOR = "<SEPARATOR>"]. *)
Definition BUFFER_SIZE : Z := 1024.
Definition SEPARATOR : str := s_ "<SEPARATOR>".

Definition READY : str := s_ "READY".
Definition SUCCESS : str := s_ "SUCCESS".
Definition FAILED : str := s_ "FAILED".

(** The exceptions the two programs can meet.  All of them are subclasses of
    [Exception]; [is_ValueError] gives the part of the class hierarchy the
    receiver's [except ValueError] looks at. *)
Inductive exn : Type :=
| ValueError                (* tuple unpacking, int(), embedded NUL in a name *)
| UnicodeDecodeError        (* subclass of ValueError *)
| UnicodeEncodeError        (* subclass of ValueError *)
| ZeroDivisionError
| ConnectionRefusedError    (* subclass of OSError *)
| ConnectionResetError      (* subclass of OSError *)
| BrokenPipeError           (* subclass of OSError *)
| FileNotFoundError         (* subclass of OSError *)
| PermissionError           (* subclass of OSError *)
| IsADirectoryError         (* subclass of OSError *)
| OSError.

Definition is_ValueError (e : exn) : bool :=
  match e with
  | ValueError | UnicodeDecodeError | UnicodeEncodeError => true
  | _ => false
  end.

(** ** [bytes.decode('utf-8')] and [str.encode('utf-8')]

    The strict codec: overlong forms, surrogates and code points above
    U+10FFFF are refused. *)

Definition is_cont (x : N) : bool := ((128 <=? x) && (x <=? 191))%N.
Definition is_surrogate (c : N) : bool := ((55296 <=? c) && (c <=? 57343))%N.

Fixpoint utf8_decode (bs : bytes) : option str :=
  match bs with
  | [] => Some []
  | b0 :: r0 =>
    let x0 := Byte.to_N b0 in
    if (x0 <? 128)%N then cons x0 <$> utf8_decode r0
    else if (x0 <? 192)%N then None
    else if (x0 <? 224)%N then
      match r0 with
      | b1 :: r1 =>
        let x1 := Byte.to_N b1 in
        let c := ((x0 - 192) * 64 + (x1 - 128))%N in
        if is_cont x1 && (128 <=? c)%N then cons c <$> utf8_decode r1 else None
      | _ => None
      end
    else if (x0 <? 240)%N then
      match r0 with
      | b1 :: b2 :: r2 =>
        let x1 := Byte.to_N b1 in
        let x2 := Byte.to_N b2 in
        let c := ((x0 - 224) * 4096 + (x1 - 128) * 64 + (x2 - 128))%N in
        if is_cont x1 && is_cont x2 && (2048 <=? c)%N && negb (is_surrogate c)
        then cons c <$> utf8_decode r2 else None
      | _ => None
      end
    else if (x0 <? 248)%N then
      match r0 with
      | b1 :: b2 :: b3 :: r3 =>
        let x1 := Byte.to_N b1 in
        let x2 := Byte.to_N b2 in
        let x3 := Byte.to_N b3 in
        let c := ((x0 - 240) * 262144 + (x1 - 128) * 4096
                  + (x2 - 128) * 64 + (x3 - 128))%N in
        if is_cont x1 && is_cont x2 && is_cont x3
           && (65536 <=? c)%N && (c <=? 1114111)%N
        then cons c <$> utf8_decode r3 else None
      | _ => None
      end
    else None
  end.

Definition byte_of (n : N) : byte := default x00 (Byte.of_N n).

Definition utf8_encode1 (c : N) : option bytes :=
  if (c <? 128)%N then Some [byte_of c]
  else if (c <? 2048)%N then
    Some [byte_of (192 + c / 64); byte_of (128 + c mod 64)]%N
  else if (c <? 65536)%N then
    if is_surrogate c then None
    else Some [byte_of (224 + c / 4096); byte_of (128 + (c / 64) mod 64);
               byte_of (128 + c mod 64)]%N
  else if (c <=? 1114111)%N then
    Some [byte_of (240 + c / 262144); byte_of (128 + (c / 4096) mod 64);
          byte_of (128 + (c / 64) mod 64); byte_of (128 + c mod 64)]%N
  else None.

Fixpoint utf8_encode (s : str) : option bytes :=
  match s with
  | [] => Some []
  | c :: r =>
    match utf8_encode1 c, utf8_encode r with
    | Some b, Some bs => Some (b ++ bs)
    | _, _ => None
    end
  end.

(** ** [str.split(sep)] for a non-empty separator

    CPython searches the next occurrence of [sep] from the current
    position, cuts there and goes on behind it.  [str_find] is the search,
    [split_from] the loop; every round consumes at least one character, so
    [length s] rounds are enough. *)

Fixpoint starts_with (sep s : str) : bool :=
  match sep, s with
  | [], _ => true
  | c :: sep', d :: s' => (c =? d)%N && starts_with sep' s'
  | _ :: _, [] => false
  end.

Fixpoint str_find (sep s : str) : option nat :=
  if starts_with sep s then Some 0%nat
  else match s with
       | [] => None
       | _ :: s' => S <$> str_find sep s'
       end.

Fixpoint split_from (rounds : nat) (sep s : str) : list str :=
  match rounds with
  | O => [s]
  | S rounds' =>
    match str_find sep s with
    | None => [s]
    | Some i => take i s :: split_from rounds' sep (drop (i + length sep) s)
    end
  end.

Definition split (sep s : str) : list str := split_from (length s) sep s.

(** ** [os.path.basename] (posixpath): [i = p.rfind('/') + 1; return p[i:]] *)

Definition SLASH : N := 47%N.

Fixpoint rfind (c : N) (p : str) : Z :=
  match p with
  | [] => -1
  | x :: r =>
    let i := rfind c r in
    if 0 <=? i then i + 1 else if (x =? c)%N then 0 else -1
  end.

Definition basename (p : str) : str := drop (Z.to_nat (rfind SLASH p + 1)) p.

(** ** [str(n)] for an [int] *)

Definition str_of_int (n : Z) : str := s_ (NilZero.string_of_int (Z.to_int n)).

(** ** [int(s)] for a [str], base 10

    CPython first maps every non-ASCII white space to a blank and every
    non-ASCII decimal digit to its ASCII digit; any other non-ASCII character
    makes the literal invalid.  Then: leading white space, an optional sign,
    digits with single underscores between them, trailing white space, end.
    The two Unicode tables are not part of the repository: they are the
    parameters [uni_isspace] and [uni_todecimal], asked only about code
    points from 128 on. *)

Inductive chr_class : Type :=
| CSpace | CPlus | CMinus | CUnder | CDigit (d : Z) | COther.

Definition is_CSpace (c : chr_class) : bool :=
  match c with CSpace => true | _ => false end.

Fixpoint drop_while {A} (f : A -> bool) (l : list A) : list A :=
  match l with
  | [] => []
  | x :: r => if f x then drop_while f r else l
  end.

(** The run of digits and underscores; [prev_us]: the previous character was
    an underscore.  Returns the value and what follows the run. *)
Fixpoint scan_digits (acc : Z) (prev_us : bool) (cs : list chr_class)
  : option (Z * list chr_class) :=
  match cs with
  | CDigit d :: r => scan_digits (10 * acc + d) false r
  | CUnder :: r => if prev_us then None else scan_digits acc true r
  | _ => if prev_us then None else Some (acc, cs)
  end.

Section UnicodeTables.
Context (uni_isspace : N -> bool) (uni_todecimal : N -> option N).

Definition classify (c : N) : chr_class :=
  if (c <? 128)%N then
    if ((c =? 32) || ((9 <=? c) && (c <=? 13)))%N then CSpace
    else if (c =? 43)%N then CPlus
    else if (c =? 45)%N then CMinus
    else if (c =? 95)%N then CUnder
    else if ((48 <=? c) && (c <=? 57))%N then CDigit (Z.of_N (c - 48))
    else COther
  else if uni_isspace c then CSpace
  else match uni_todecimal c with
       | Some d => CDigit (Z.of_N d)
       | None => COther
       end.

Definition py_int (s : str) : option Z :=
  let cs := drop_while is_CSpace (map classify s) in
  let '(neg, cs) := match cs with
                    | CPlus :: r => (false, r)
                    | CMinus :: r => (true, r)
                    | _ => (false, cs)
                    end in
  match cs with
  | CDigit _ :: _ =>
    match scan_digits 0 false cs with
    | Some (v, rest) =>
      if forallb is_CSpace rest then Some (if neg then - v else v) else None
    | None => None
    end
  | _ => None
  end.

End UnicodeTables.

(** ** Effects: state, exceptions and fuel

    A computation takes the world, returns the changed world and either a
    value, a raised exception, or [Timeout] when a loop ran out of the
    rounds it was given. *)

Inductive result (A : Type) : Type :=
| Ok (a : A)
| Raise (e : exn)
| Timeout.
Arguments Ok {A} a.
Arguments Raise {A} e.
Arguments Timeout {A}.

Definition M (W A : Type) : Type := W -> result A * W.

Definition ret {W A} (a : A) : M W A := fun w => (Ok a, w).
Definition raise {W A} (e : exn) : M W A := fun w => (Raise e, w).
Definition timeout {W A} : M W A := fun w => (Timeout, w).
Definition bind {W A B} (m : M W A) (k : A -> M W B) : M W B :=
  fun w => match m w with
           | (Ok a, w') => k a w'
           | (Raise e, w') => (Raise e, w')
           | (Timeout, w') => (Timeout, w')
           end.
Definition modify {W} (f : W -> W) : M W unit := fun w => (Ok tt, f w).
Definition of_option {W A} (e : exn) (o : option A) : M W A :=
  match o with Some a => ret a | None => raise e end.

Declare Scope py_scope.
Delimit Scope py_scope with py.
Notation "x <- m ;; k" := (bind m (fun x => k))
  (at level 100, m at next level, right associativity) : py_scope.
Notation "m ;;; k" := (bind m (fun _ => k))
  (at level 100, right associativity) : py_scope.
Local Open Scope py_scope.

(** [try: body  except ValueError: h1  except Exception: h2  finally: fin].
    Every exception of the model is an [Exception], so the second clause
    catches what the first one leaves. *)
Definition try_except_finally {W A}
  (body : M W A) (on_value_error on_exception : M W A) (fin : M W unit) : M W A :=
  fun w =>
    let '(r, w1) := body w in
    let '(r', w2) := match r with
                     | Raise e => if is_ValueError e then on_value_error w1
                                  else on_exception w1
                     | _ => (r, w1)
                     end in
    match fin w2 with
    | (Ok _, w3) => (r', w3)
    | (Raise e, w3) => (Raise e, w3)
    | (Timeout, w3) => (Timeout, w3)
    end.

(** ** The receiver: [server.py] *)

(** What the receiver prints, as far as the claims look at it. *)
Inductive server_line : Type :=
| PNoData                              (* "No data received from client." *)
| PReceiving (filename : str) (filesize : Z)
| PProgress (bytes_received filesize : Z)
| PConnectionLost                      (* "Connection lost during transfer!" *)
| PReceived (filename : str)           (* "File ... received successfully!" *)
| PIncomplete (bytes_received filesize : Z)
| PParseError                          (* "Error parsing file information" *)
| PTransferError                       (* "Error during file transfer" *)
| PClosed.                             (* "Connection closed." *)

(** The world of one accepted connection.  [sv_in]: the segments that will
    still arrive from the peer, in order; a stream may cut the peer's writes
    into segments as it likes, and after the last segment the peer has closed
    its side, so [recv] returns the empty string.  [sv_out]: what was sent,
    one entry per [send].  [sv_fs]: the files of the working directory.
    [sv_deny]: the names the operating system refuses to open for writing. *)
Record server_world : Type := {
  sv_in : list bytes;
  sv_out : list bytes;
  sv_fs : gmap str bytes;
  sv_deny : str -> option exn;
  sv_closed : bool;
  sv_log : list server_line
}.

Definition set_in (i : list bytes) (w : server_world) : server_world :=
  {| sv_in := i; sv_out := sv_out w; sv_fs := sv_fs w; sv_deny := sv_deny w;
     sv_closed := sv_closed w; sv_log := sv_log w |}.
Definition set_out (o : list bytes) (w : server_world) : server_world :=
  {| sv_in := sv_in w; sv_out := o; sv_fs := sv_fs w; sv_deny := sv_deny w;
     sv_closed := sv_closed w; sv_log := sv_log w |}.
Definition set_fs (f : gmap str bytes) (w : server_world) : server_world :=
  {| sv_in := sv_in w; sv_out := sv_out w; sv_fs := f; sv_deny := sv_deny w;
     sv_closed := sv_closed w; sv_log := sv_log w |}.
Definition set_closed (w : server_world) : server_world :=
  {| sv_in := sv_in w; sv_out := sv_out w; sv_fs := sv_fs w; sv_deny := sv_deny w;
     sv_closed := true; sv_log := sv_log w |}.
Definition set_log (l : list server_line) (w : server_world) : server_world :=
  {| sv_in := sv_in w; sv_out := sv_out w; sv_fs := sv_fs w; sv_deny := sv_deny w;
     sv_closed := sv_closed w; sv_log := l |}.

(** [socket.recv(k)] on a stream: at most [k] bytes of the next segment; the
    rest of the segment stays first in line.  No segment left: the peer has
    closed, the result is empty. *)
Fixpoint recv (k : nat) (segs : list bytes) : bytes * list bytes :=
  match segs with
  | [] => ([], [])
  | [] :: rest => recv k rest
  | seg :: rest =>
    (take k seg, if (length seg <=? k)%nat then rest else drop k seg :: rest)
  end.

Definition sv_recv (k : Z) : M server_world bytes :=
  fun w => let '(chunk, rest) := recv (Z.to_nat k) (sv_in w) in
           (Ok chunk, set_in rest w).

Definition sv_send (msg : bytes) : M server_world unit :=
  modify (fun w => set_out (sv_out w ++ [msg]) w).

Definition sv_print (l : server_line) : M server_world unit :=
  modify (fun w => set_log (sv_log w ++ [l]) w).

Definition sv_close : M server_world unit := modify set_closed.

Definition encode {W} (s : str) : M W bytes :=
  of_option UnicodeEncodeError (utf8_encode s).
Definition decode {W} (b : bytes) : M W str :=
  of_option UnicodeDecodeError (utf8_decode b).

(** [open(filename, 'wb')]: the empty name does not exist, [.] and [..] are
    directories, a name with a NUL character is a [ValueError]; otherwise the
    operating system decides, and the file is created or truncated. *)
Definition open_wb (filename : str) : M server_world unit :=
  fun w =>
    if bool_decide (filename = []) then (Raise FileNotFoundError, w)
    else if bool_decide (filename = s_ "." \/ filename = s_ "..")
    then (Raise IsADirectoryError, w)
    else if bool_decide (0%N ∈ filename) then (Raise ValueError, w)
    else match sv_deny w filename with
         | Some e => (Raise e, w)
         | None => (Ok tt, set_fs (<[filename := []]> (sv_fs w)) w)
         end.

(** [file.write(chunk)] *)
Definition file_write (filename : str) (chunk : bytes) : M server_world unit :=
  modify (fun w => set_fs (alter (fun old => old ++ chunk) filename (sv_fs w)) w).

Definition len (b : bytes) : Z := Z.of_nat (length b).

(** Lines 88-106, the body-read loop.  Returns [bytes_received]. *)
Fixpoint recv_loop (rounds : nat) (filename : str) (filesize bytes_received : Z)
  : M server_world Z :=
  if bytes_received <? filesize then
    match rounds with
    | O => timeout
    | S rounds' =>
      let bytes_remaining := filesize - bytes_received in
      chunk <- sv_recv (Z.min BUFFER_SIZE bytes_remaining) ;;
      match chunk with
      | [] => sv_print PConnectionLost ;;; ret bytes_received
      | _ =>
        file_write filename chunk ;;;
        let bytes_received := bytes_received + len chunk in
        sv_print (PProgress bytes_received filesize) ;;;
        recv_loop rounds' filename filesize bytes_received
      end
    end
  else ret bytes_received.

Section Receiver.
Context (uni_isspace : N -> bool) (uni_todecimal : N -> option N).

(** Lines 70-74: split, unpack into two names, basename, int. *)
Definition parse_header (received_data : str) : result (str * Z) :=
  match split SEPARATOR received_data with
  | [filename; filesize] =>
    let filename := basename filename in
    match py_int uni_isspace uni_todecimal filesize with
    | Some filesize => Ok (filename, filesize)
    | None => Raise ValueError
    end
  | _ => Raise ValueError
  end.

(** Lines 58-120, the [try] block of one accepted connection.  Every
    iteration of the loop receives at least one byte, so [filesize] rounds
    are enough. *)
Definition serve_body : M server_world unit :=
  data <- sv_recv BUFFER_SIZE ;;
  received_data <- decode data ;;
  match received_data with
  | [] => sv_print PNoData ;;; sv_close
  | _ =>
    header <- (fun w => (parse_header received_data, w)) ;;
    let '(filename, filesize) := header in
    sv_print (PReceiving filename filesize) ;;;
    sv_send (b_ "READY") ;;;
    open_wb filename ;;;
    bytes_received <- recv_loop (Z.to_nat filesize) filename filesize 0 ;;
    if bytes_received =? filesize then
      sv_print (PReceived filename) ;;;
      sv_send (b_ "SUCCESS")
    else
      sv_print (PIncomplete bytes_received filesize) ;;;
      sv_send (b_ "FAILED")
  end.

(** Lines 57-130: the [try] block with its two [except] clauses and the
    [finally] that closes the connection. *)
Definition handle_client : M server_world unit :=
  try_except_finally serve_body
    (sv_print PParseError) (sv_print PTransferError)
    (sv_close ;;; sv_print PClosed).

End Receiver.

Definition no_space : N -> bool := fun _ => false.
Definition no_decimal : N -> option N := fun _ => None.

Definition fresh_server (segs : list bytes) : server_world :=
  {| sv_in := segs; sv_out := []; sv_fs := ∅; sv_deny := fun _ => None;
     sv_closed := false; sv_log := [] |}.

(** ** The sender: [client.py] *)

(** What the sender prints, as far as the claims look at it. *)
Inductive client_line : Type :=
| PServerNotReady (response : str)     (* "Server not ready. Response: ..." *)
| PSent                                (* "File ... sent successfully!" *)
| PRemoteFailed (confirmation : str)   (* "Server reported transfer failed" *)
| PRefused                             (* "Could not connect to ..." *)
| PFileNotFound                        (* send_file: "File not found" *)
| PPermission                          (* "Permission denied to read file" *)
| PError                               (* "Error: ..." *)
| PConnectionClosed                    (* "Connection closed." *)
| PNoSuchFile                          (* main: "File not found" *)
| PCannotRead                          (* main: "Cannot read file" *)
| PTransferComplete
| PTransferFailed.

(** What the sender does to the outside, in order. *)
Inductive client_event : Type :=
| EConnect
| ESend (data : bytes)
| ERecv
| EGetSize (filepath : str)
| EOpen (filepath : str)
| EProgress (bytes_sent filesize : Z)
| EClose
| EPrint (line : client_line).

(** The sender's surroundings: what each call to the operating system will
    answer.  [net_send i] and [net_recv i] are the outcomes of the [i]-th
    [send] and [recv] on the socket, counted from 0.  [fs_open] gives the
    bytes a handle opened with ['rb'] reads. *)
Record client_env : Type := {
  net_connect : option exn;
  net_send : nat -> option exn;
  net_recv : nat -> exn + bytes;
  fs_isfile : str -> bool;
  fs_access : str -> bool;
  fs_getsize : str -> exn + Z;
  fs_open : str -> exn + bytes
}.

Abbreviation trace := (list client_event).

Definition is_send (e : client_event) : bool :=
  match e with ESend _ => true | _ => false end.
Definition is_recv (e : client_event) : bool :=
  match e with ERecv => true | _ => false end.

(** The payloads of the [send] calls of a trace, in order. *)
Fixpoint sends (tr : trace) : list bytes :=
  match tr with
  | [] => []
  | ESend d :: r => d :: sends r
  | _ :: r => sends r
  end.

Definition emit (e : client_event) : M trace unit := modify (fun tr => tr ++ [e]).
Definition cl_print (l : client_line) : M trace unit := emit (EPrint l).
Definition of_sum {A} (x : exn + A) : M trace A :=
  match x with inl e => raise e | inr a => ret a end.

Section Sender.
Context (env : client_env).

Definition cl_connect : M trace unit :=
  emit EConnect ;;;
  match net_connect env with Some e => raise e | None => ret tt end.

Definition cl_send (data : bytes) : M trace unit :=
  fun tr =>
    let i := length (filter is_send tr) in
    match net_send env i with
    | Some e => (Raise e, tr ++ [ESend data])
    | None => (Ok tt, tr ++ [ESend data])
    end.

Definition cl_recv : M trace bytes :=
  fun tr =>
    let i := length (filter is_recv tr) in
    of_sum (net_recv env i) (tr ++ [ERecv]).

Definition cl_getsize (filepath : str) : M trace Z :=
  emit (EGetSize filepath) ;;; of_sum (fs_getsize env filepath).

Definition cl_open_rb (filepath : str) : M trace bytes :=
  emit (EOpen filepath) ;;; of_sum (fs_open env filepath).

(** Lines 74-88, the streaming loop.  [file] is what the handle has not read
    yet; [file.read(BUFFER_SIZE)] takes its first [BUFFER_SIZE] bytes.
    Returns [bytes_sent]. *)
Fixpoint stream_loop (rounds : nat) (filesize : Z) (file : bytes) (bytes_sent : Z)
  : M trace Z :=
  match rounds with
  | O => timeout
  | S rounds' =>
    let chunk := take (Z.to_nat BUFFER_SIZE) file in
    let file := drop (Z.to_nat BUFFER_SIZE) file in
    match chunk with
    | [] => ret bytes_sent
    | _ =>
      cl_send chunk ;;;
      let bytes_sent := bytes_sent + len chunk in
      (if filesize =? 0 then raise ZeroDivisionError else ret tt) ;;;
      emit (EProgress bytes_sent filesize) ;;;
      stream_loop rounds' filesize file bytes_sent
    end
  end.

(** Lines 44-101, the [try] block of [send_file].  The loop reads at least
    one byte in every round but the last, so [length file + 1] rounds are
    enough. *)
Definition send_file_body (filepath : str) : M trace bool :=
  cl_connect ;;;
  let filename := basename filepath in
  filesize <- cl_getsize filepath ;;
  file_info <- encode (filename ++ SEPARATOR ++ str_of_int filesize) ;;
  cl_send file_info ;;;
  data <- cl_recv ;;
  response <- decode data ;;
  if negb (bool_decide (response = READY)) then
    cl_print (PServerNotReady response) ;;; ret false
  else
    file <- cl_open_rb filepath ;;
    stream_loop (S (length file)) filesize file 0 ;;;
    data <- cl_recv ;;
    confirmation <- decode data ;;
    if bool_decide (confirmation = SUCCESS) then
      cl_print PSent ;;; ret true
    else
      cl_print (PRemoteFailed confirmation) ;;; ret false.

(** Lines 43-119: [send_file] with its four [except] clauses and the
    [finally] that closes the socket. *)
Definition send_file (filepath : str) : M trace bool :=
  fun tr =>
    let '(r, tr1) := send_file_body filepath tr in
    let '(r', tr2) :=
      match r with
      | Raise ConnectionRefusedError => (cl_print PRefused ;;; ret false) tr1
      | Raise FileNotFoundError => (cl_print PFileNotFound ;;; ret false) tr1
      | Raise PermissionError => (cl_print PPermission ;;; ret false) tr1
      | Raise _ => (cl_print PError ;;; ret false) tr1
      | _ => (r, tr1)
      end in
    (r', tr2 ++ [EClose; EPrint PConnectionClosed]).

(** Lines 153-175 of [main]: what one round of the prompt loop does with the
    path the user entered. *)
Definition main_iteration (filepath : str) : M trace unit :=
  if negb (fs_isfile env filepath) then cl_print PNoSuchFile
  else if negb (fs_access env filepath) then cl_print PCannotRead
  else
    success <- send_file filepath ;;
    if success then cl_print PTransferComplete else cl_print PTransferFailed.

End Sender.

(** A sender's surroundings in which everything works: the server accepts,
    every [send] goes through, the path names a readable file with the given
    content, and the server's answers are [answers]. *)
Definition answers_of (answers : list bytes) (i : nat) : exn + bytes :=
  match answers !! i with
  | Some a => inr a
  | None => inr []
  end.

Definition good_env (filepath : str) (content : bytes) (answers : list bytes)
  : client_env :=
  {| net_connect := None;
     net_send := fun _ => None;
     net_recv := answers_of answers;
     fs_isfile := fun p => bool_decide (p = filepath);
     fs_access := fun p => bool_decide (p = filepath);
     fs_getsize := fun p => if bool_decide (p = filepath)
                            then inr (len content) else inl FileNotFoundError;
     fs_open := fun p => if bool_decide (p = filepath)
                         then inr content else inl FileNotFoundError |}.

(** What the body-read loop prints while [bytes_received] is above [r]. *)
Definition loop_line (filesize r : Z) (l : server_line) : Prop :=
  l = PConnectionLost \/ exists b, l = PProgress b filesize /\ r < b <= filesize.

(** The world after one round of the body-read loop that received [chunk]. *)
Definition after_chunk (filename : str) (filesize r : Z) (chunk : bytes)
  (rest : list bytes) (w : server_world) : server_world :=
  set_log (sv_log w ++ [PProgress (r + len chunk) filesize])
    (set_fs (alter (fun old => old ++ chunk) filename (sv_fs w)) (set_in rest w)).

(** The receiver can create [filename] in its working directory. *)
Definition writable (w : server_world) (filename : str) : Prop :=
  filename <> [] /\ filename <> s_ "." /\ filename <> s_ ".." /\
  (0%N ∉ filename) /\ sv_deny w filename = None.

(** The token the receiver sends after the body-read loop, and the line it
    prints, when [avail] bytes arrive before the peer closes. *)
Definition complete (filesize : Z) (avail : bytes) : bool :=
  bool_decide (0 <= filesize <= len avail).
Definition confirmation_of (filesize : Z) (avail : bytes) : bytes :=
  if complete filesize avail then b_ "SUCCESS" else b_ "FAILED".
Definition verdict_line (filename : str) (filesize : Z) (avail : bytes) : server_line :=
  if complete filesize avail then PReceived filename
  else PIncomplete (Z.of_nat (Z.to_nat (Z.min filesize (len avail)))) filesize.

(** [sep] occurs in [s] exactly once, between [a] and [b]. *)
Definition once (sep s a b : str) : Prop :=
  s = a ++ sep ++ b /\ forall a' b', s = a' ++ sep ++ b' -> a' = a.

(** Lines 60 and 70-74 together: from the bytes of the first [recv] to the
    file name and size the receiver goes on with. *)
Definition decode_header (sp : N -> bool) (dg : N -> option N) (data : bytes)
  : option (str * Z) :=
  match utf8_decode data with
  | Some s => match parse_header sp dg s with
              | Ok p => Some p
              | _ => None
              end
  | None => None
  end.

(** The size field as the specification words it, "a valid non-negative
    decimal integer": one or more of the digits 0 to 9.  It is here to be
    compared with what [py_int] accepts. *)
Definition is_ascii_digit (c : N) : bool := ((48 <=? c) && (c <=? 57))%N.
Definition valid_size_field (s : str) : bool :=
  negb (bool_decide (s = [])) && forallb is_ascii_digit s.

(** The chunks the streaming loop reads from [file], and what the loop does
    with them when every [send] goes through. *)
Fixpoint chunks_from (rounds : nat) (file : bytes) : list bytes :=
  match rounds with
  | O => []
  | S rounds' =>
    match take (Z.to_nat BUFFER_SIZE) file with
    | [] => []
    | chunk => chunk :: chunks_from rounds' (drop (Z.to_nat BUFFER_SIZE) file)
    end
  end.

Definition chunks (file : bytes) : list bytes := chunks_from (S (length file)) file.

Fixpoint stream_events (filesize bytes_sent : Z) (cs : list bytes) : trace :=
  match cs with
  | [] => []
  | c :: r =>
    ESend c :: EProgress (bytes_sent + len c) filesize
      :: stream_events filesize (bytes_sent + len c) r
  end.

Definition is_progress (e : client_event) : bool :=
  match e with EProgress _ _ => true | _ => false end.
Definition is_open (e : client_event) : bool :=
  match e with EOpen _ => true | _ => false end.
Definition is_network (e : client_event) : bool :=
  match e with EConnect | ESend _ | ERecv => true | _ => false end.
Definition is_close (e : client_event) : bool :=
  match e with EClose => true | _ => false end.

(** The value of a row of decimal digits read from the left, starting from
    [acc]; it is what [scan_digits] computes on the digits [str_of_int]
    prints. *)
Fixpoint uint_value (acc : Z) (d : Decimal.uint) : Z :=
  match d with
  | Decimal.Nil => acc
  | Decimal.D0 l => uint_value (10 * acc + 0) l
  | Decimal.D1 l => uint_value (10 * acc + 1) l
  | Decimal.D2 l => uint_value (10 * acc + 2) l
  | Decimal.D3 l => uint_value (10 * acc + 3) l
  | Decimal.D4 l => uint_value (10 * acc + 4) l
  | Decimal.D5 l => uint_value (10 * acc + 5) l
  | Decimal.D6 l => uint_value (10 * acc + 6) l
  | Decimal.D7 l => uint_value (10 * acc + 7) l
  | Decimal.D8 l => uint_value (10 * acc + 8) l
  | Decimal.D9 l => uint_value (10 * acc + 9) l
  end.

(** Line 54: the next accepted connection, on which [segs] will arrive.  The
    files stay as the sessions before left them. *)
Definition accept (segs : list bytes) (w : server_world) : server_world :=
  {| sv_in := segs; sv_out := []; sv_fs := sv_fs w; sv_deny := sv_deny w;
     sv_closed := false; sv_log := sv_log w |}.

(** The literals [int()] accepts, as a grammar over the classes of their
    characters: white space, an optional sign, a run of digits in which
    single underscores may stand between two digits, white space.  The
    value is that of the digits, read from the left. *)
Inductive digit_run : list chr_class -> Prop :=
| run_last d : digit_run [CDigit d]
| run_digit d ds : digit_run ds -> digit_run (CDigit d :: ds)
| run_under d ds : digit_run ds -> digit_run (CDigit d :: CUnder :: ds).

Definition add_digit (acc : Z) (c : chr_class) : Z :=
  match c with CDigit d => 10 * acc + d | _ => acc end.

Definition run_value (ds : list chr_class) : Z := fold_left add_digit ds 0.

Inductive sign_of : list chr_class -> Z -> Prop :=
| sign_none : sign_of [] 1
| sign_plus : sign_of [CPlus] 1
| sign_minus : sign_of [CMinus] (-1).

Definition int_literal (cs : list chr_class) (z : Z) : Prop :=
  exists ws1 sg ds ws2 sgn,
    cs = ws1 ++ sg ++ ds ++ ws2 /\
    Forall (fun c => c = CSpace) ws1 /\ Forall (fun c => c = CSpace) ws2 /\
    sign_of sg sgn /\ digit_run ds /\ z = sgn * run_value ds.

(** What may follow a run of digits: nothing, or a character that is neither
    a digit nor an underscore. *)
Definition ends_run (rest : list chr_class) : Prop :=
  match rest with
  | [] => True
  | CDigit _ :: _ | CUnder :: _ => False
  | _ => True
  end.

(** A sender's surroundings in which everything works but the [send] number
    [bad], which finds the connection broken. *)
Definition flaky_env (filepath : str) (content : bytes) (bad : nat) : client_env :=
  {| net_connect := None;
     net_send := fun i => if (i =? bad)%nat then Some BrokenPipeError else None;
     net_recv := answers_of [b_ "READY"; b_ "SUCCESS"];
     fs_isfile := fun _ => true;
     fs_access := fun _ => true;
     fs_getsize := fun _ => inr (len content);
     fs_open := fun _ => inr content |}.

(** ** [start_server]: the listening socket and the accept loop *)

(** The exceptions of the model the outer [except OSError] catches. *)
Definition is_OSError (e : exn) : bool :=
  match e with
  | ConnectionRefusedError | ConnectionResetError | BrokenPipeError
  | FileNotFoundError | PermissionError | IsADirectoryError | OSError => true
  | _ => false
  end.

(** What [start_server] prints.  [LSession] carries a line the session
    inside the loop printed. *)
Inductive listener_line : Type :=
| LStarted                             (* lines 44-46 *)
| LConnection                          (* "Connection established from ..." *)
| LSession (l : server_line)
| LWaiting                             (* "Waiting for next connection..." *)
| LBindError                           (* lines 133-135 *)
| LShutdown                            (* "Server shutting down..." *)
| LStopped.                            (* "Server stopped." *)

(** The server process.  [ls_world]: the world the last session left; the
    next session inherits its files.  [ls_served]: for each accepted
    connection, what was sent on it and whether it was closed.
    [ls_listening]: the listening socket is open. *)
Record listener : Type := {
  ls_world : server_world;
  ls_served : list (list bytes * bool);
  ls_listening : bool;
  ls_stdout : list listener_line
}.

Definition ls_print (l : listener_line) (s : listener) : listener :=
  {| ls_world := ls_world s; ls_served := ls_served s;
     ls_listening := ls_listening s; ls_stdout := ls_stdout s ++ [l] |}.

Definition ls_close (s : listener) : listener :=
  {| ls_world := ls_world s; ls_served := ls_served s;
     ls_listening := false; ls_stdout := ls_stdout s |}.

(** How the [while True] of line 51 is left: by the interrupt from the
    keyboard, by an exception, or because a loop of the model ran out of
    rounds. *)
Inductive stop : Type :=
| Interrupt
| Exn (e : exn)
| OutOfRounds.

Section Listener.
Context (uni_isspace : N -> bool) (uni_todecimal : N -> option N).

(** Lines 54-130: one round of the accept loop, for a connection on which
    [segs] arrive.  [accept] is taken to succeed. *)
Definition serve_one (segs : list bytes) (s : listener) : result unit * listener :=
  let w := set_log [] (accept segs (ls_world s)) in
  let '(r, w') := handle_client uni_isspace uni_todecimal w in
  (r, {| ls_world := w';
         ls_served := ls_served s ++ [(sv_out w', sv_closed w')];
         ls_listening := ls_listening s;
         ls_stdout := ls_stdout s ++ [LConnection] ++ map LSession (sv_log w')
                        ++ [LWaiting] |}).

(** Lines 51-130.  The connections of [conns] arrive one after the other;
    then the interrupt arrives, while the server waits in [accept].  Every
    peer closes its side after its last segment, so every session comes to
    its end; a peer that stays silent, for which the server would wait in
    [recv], is not among them. *)
Fixpoint accept_loop (conns : list (list bytes)) (s : listener) : stop * listener :=
  match conns with
  | [] => (Interrupt, s)
  | segs :: conns' =>
    match serve_one segs s with
    | (Ok _, s') => accept_loop conns' s'
    | (Raise e, s') => (Exn e, s')
    | (Timeout, s') => (OutOfRounds, s')
    end
  end.

(** Lines 41-141.  [bind]: the exception [server_socket.bind] raises, if
    any. *)
Definition start_server (bind : option exn) (conns : list (list bytes))
  : M listener unit :=
  fun s =>
    let '(st, s1) := match bind with
                     | Some e => (Exn e, s)
                     | None => accept_loop conns (ls_print LStarted s)
                     end in
    let '(r, s2) := match st with
                    | Interrupt => (Ok tt, ls_print LShutdown s1)
                    | Exn e => if is_OSError e then (Ok tt, ls_print LBindError s1)
                               else (Raise e, s1)
                    | OutOfRounds => (Timeout, s1)
                    end in
    (r, ls_print LStopped (ls_close s2)).

End Listener.

(** The server process before [start_server] runs, in a directory with the
    files [fs]. *)
Definition fresh_listener (fs : gmap str bytes) : listener :=
  {| ls_world := set_fs fs (fresh_server []); ls_served := [];
     ls_listening := true; ls_stdout := [] |}.

(** The answers a connection can get. *)
Definition answer (toks : list bytes) : Prop :=
  toks = [] \/ toks = [b_ "READY"] \/ toks = [b_ "READY"; b_ "SUCCESS"]
  \/ toks = [b_ "READY"; b_ "FAILED"].

(** The header of the connection on which [segs] arrive names [name]. *)
Definition names (sp : N -> bool) (dg : N -> option N) (segs : list bytes)
  (name : str) : Prop :=
  exists filesize,
    decode_header sp dg (fst (recv (Z.to_nat BUFFER_SIZE) segs)) = Some (name, filesize).

(** A line of the accept loop itself. *)
Definition loop_output (l : listener_line) : Prop :=
  match l with
  | LConnection | LSession _ | LWaiting => True
  | _ => False
  end.

(** ** The prompt of [main] *)

(** [str.strip()] and [str.strip(chars)]: the characters [f] accepts are
    removed from both ends. *)
Definition strip_where (f : N -> bool) (s : str) : str :=
  reverse (drop_while f (reverse (drop_while f s))).

Definition DQUOTE : N := 34.
Definition SQUOTE : N := 39.

(** What the prompt loop does next. *)
Inductive prompt_action : Type :=
| Quit                                 (* "Goodbye!", break *)
| AskAgain                             (* "Please enter a valid file path." *)
| Try (filepath : str).                (* goes on to the checks of line 154 *)

Section Prompt.
Context (uni_isspace : N -> bool) (uni_lower : str -> str).

(** Lines 138-151 of [main]: what the loop makes of the line the user
    entered.  [uni_lower] is [str.lower]. *)
Definition read_path (line : str) : prompt_action :=
  let filepath := strip_where uni_isspace line in
  if bool_decide (uni_lower filepath ∈ [s_ "quit"; s_ "exit"; s_ "q"]) then Quit
  else match filepath with
       | [] => AskAgain
       | _ => Try (strip_where (N.eqb SQUOTE) (strip_where (N.eqb DQUOTE) filepath))
       end.

End Prompt.

(** A character that is neither white space nor a quote. *)
Definition plain (sp : N -> bool) (c : N) : Prop :=
  sp c = false /\ c <> DQUOTE /\ c <> SQUOTE.

(** ** What a byte stream delivers *)



(** ** [send_file] and the encoding of the standard output *)

Section SenderStdout.
Context (env : client_env).

(** [print] of a line that quotes [s], on a standard output that encodes as
    UTF-8 with the error handler [strict], the default of Python 3: a string
    with a surrogate cannot be printed, [print] raises
    [UnicodeEncodeError]. *)
Definition cl_print_quoting (s : str) (l : client_line) : M trace unit :=
  encode s ;;; cl_print l.

(** Lines 43-119 on such a standard output.  The prints of the [except]
    clauses of lines 108 and 111 quote [filepath] as it was passed in; what
    they raise is raised inside the clause, where no clause catches it, and
    leaves [send_file] once the [finally] has run.  The other prints of the
    function quote constants, the text of an exception, a string that was
    decoded from UTF-8, or (lines 53 and 97) the name that line 59 encodes,
    for which [encode] answers in [send_file_body].  [send_file] above is the
    same function on a standard output that prints every string, such as one
    with the error handler [surrogateescape]. *)
Definition send_file_strict (filepath : str) : M trace bool :=
  fun tr =>
    let '(r, tr1) := send_file_body env filepath tr in
    let '(r', tr2) :=
      match r with
      | Raise ConnectionRefusedError => (cl_print PRefused ;;; ret false) tr1
      | Raise FileNotFoundError =>
        (cl_print_quoting filepath PFileNotFound ;;; ret false) tr1
      | Raise PermissionError =>
        (cl_print_quoting filepath PPermission ;;; ret false) tr1
      | Raise _ => (cl_print PError ;;; ret false) tr1
      | _ => (r, tr1)
      end in
    (r', tr2 ++ [EClose; EPrint PConnectionClosed]).

End SenderStdout.

(** Surroundings in which the server accepts and no file exists. *)
Definition no_file_env : client_env :=
  {| net_connect := None;
     net_send := fun _ => None;
     net_recv := fun _ => inr [];
     fs_isfile := fun _ => false;
     fs_access := fun _ => false;
     fs_getsize := fun _ => inl FileNotFoundError;
     fs_open := fun _ => inl FileNotFoundError |}.

(** The path [\udcff.txt]: a file name whose first byte was 0xFF, as Python
    decodes the names the file system gives it. *)
Definition surrogate_path : str := 56575%N :: s_ ".txt".

(** * Properties *)

(** ** The model on small inputs *)

Example split_ex : split SEPARATOR (s_ "a.txt<SEPARATOR>12") = [s_ "a.txt"; s_ "12"].
Proof. reflexivity. Qed.

Example int_ex : py_int (fun _ => false) (fun _ => None) (s_ " -1_0 ") = Some (-10).
Proof. reflexivity. Qed.

Example basename_ex : basename (s_ "../x/a.txt") = s_ "a.txt".
Proof. reflexivity. Qed.
Example dec_ex : utf8_decode (b_ "READY") = Some READY.
Proof. reflexivity. Qed.
Example serve_ex :
  let w := snd (handle_client no_space no_decimal
                  (fresh_server [b_ "d/a.txt<SEPARATOR>5"; b_ "he"; b_ "llo"])) in
  sv_out w = [b_ "READY"; b_ "SUCCESS"] /\ sv_fs w !! s_ "a.txt" = Some (b_ "hello").
Proof. vm_compute. split; reflexivity. Qed.

Example send_ex :
  send_file (good_env (s_ "d/a.txt") (b_ "hello") [b_ "READY"; b_ "SUCCESS"])
    (s_ "d/a.txt") []
  = (Ok true,
     [EConnect; EGetSize (s_ "d/a.txt"); ESend (b_ "a.txt<SEPARATOR>5"); ERecv;
      EOpen (s_ "d/a.txt"); ESend (b_ "hello"); EProgress 5 5; ERecv;
      EPrint PSent; EClose; EPrint PConnectionClosed]).
Proof. vm_compute. reflexivity. Qed.

(** ** The monad *)

Lemma bind_ok {W A B} (m : M W A) (k : A -> M W B) w a w' :
  m w = (Ok a, w') -> bind m k w = k a w'.
Proof. intros H. unfold bind. rewrite H. reflexivity. Qed.

Lemma bind_raise {W A B} (m : M W A) (k : A -> M W B) w e w' :
  m w = (Raise e, w') -> bind m k w = (Raise e, w').
Proof. intros H. unfold bind. rewrite H. reflexivity. Qed.

(** ** [recv] on a stream of segments *)

Lemma recv_concat k segs :
  fst (recv k segs) ++ concat (snd (recv k segs)) = concat segs.
Proof.
  induction segs as [|seg rest IH]; [reflexivity|].
  destruct seg as [|b seg]; [exact IH|].
  cbn [recv fst snd].
  destruct (length (b :: seg) <=? k)%nat eqn:E; cbn [concat snd].
  - apply Nat.leb_le in E. rewrite take_ge by exact E. reflexivity.
  - rewrite app_assoc, take_drop. reflexivity.
Qed.

Lemma recv_length k segs : (length (fst (recv k segs)) <= k)%nat.
Proof.
  induction segs as [|seg rest IH]; [cbn; lia|].
  destruct seg as [|b seg]; [exact IH|].
  cbn [recv fst]. rewrite length_take. lia.
Qed.

Lemma recv_nil k segs :
  (0 < k)%nat -> fst (recv k segs) = [] -> concat segs = [] /\ snd (recv k segs) = [].
Proof.
  intros Hk. induction segs as [|seg rest IH]; [done|].
  destruct seg as [|b seg]; [exact IH|].
  cbn [recv fst]. destruct k; [lia|]. discriminate.
Qed.

Lemma recv_eof k segs : concat segs = [] -> recv k segs = ([], []).
Proof.
  induction segs as [|seg rest IH]; [done|].
  cbn [concat]. intros H. apply app_eq_nil in H as [-> H]. exact (IH H).
Qed.

(** ** The receiver's body-read loop *)

Lemma loop_line_mono filesize r r' l :
  r <= r' -> loop_line filesize r' l -> loop_line filesize r l.
Proof.
  intros Hr [->|(b & -> & Hb)]; [by left|right]. exists b. split; [done|lia].
Qed.

Lemma recv_loop_done rounds filename filesize r w :
  filesize <= r -> recv_loop rounds filename filesize r w = (Ok r, w).
Proof.
  intros H. destruct rounds; cbn [recv_loop];
    (destruct (r <? filesize) eqn:E; [apply Z.ltb_lt in E; lia | reflexivity]).
Qed.

Lemma recv_loop_more rounds filename filesize r w chunk rest :
  r < filesize ->
  recv (Z.to_nat (Z.min BUFFER_SIZE (filesize - r))) (sv_in w) = (chunk, rest) ->
  chunk <> [] ->
  recv_loop (S rounds) filename filesize r w
  = recv_loop rounds filename filesize (r + len chunk)
      (after_chunk filename filesize r chunk rest w).
Proof.
  intros Hlt Hrecv Hne. cbn [recv_loop]. apply Z.ltb_lt in Hlt. rewrite Hlt.
  unfold bind at 1. unfold sv_recv. rewrite Hrecv.
  destruct chunk; [done|]. reflexivity.
Qed.

Lemma recv_loop_lost rounds filename filesize r w rest :
  r < filesize ->
  recv (Z.to_nat (Z.min BUFFER_SIZE (filesize - r))) (sv_in w) = ([], rest) ->
  recv_loop (S rounds) filename filesize r w
  = (Ok r, set_log (sv_log w ++ [PConnectionLost]) (set_in rest w)).
Proof.
  intros Hlt Hrecv. cbn [recv_loop]. apply Z.ltb_lt in Hlt. rewrite Hlt.
  unfold bind at 1. unfold sv_recv. rewrite Hrecv. reflexivity.
Qed.

Lemma recv_loop_spec rounds : forall filename filesize r w f,
  (Z.to_nat (filesize - r) <= rounds)%nat ->
  sv_fs w !! filename = Some f ->
  exists w' lines,
    let avail := concat (sv_in w) in
    let n := Z.to_nat (Z.min (filesize - r) (len avail)) in
    recv_loop rounds filename filesize r w = (Ok (r + Z.of_nat n), w') /\
    sv_fs w' = <[filename := f ++ take n avail]> (sv_fs w) /\
    concat (sv_in w') = drop n avail /\
    sv_out w' = sv_out w /\ sv_closed w' = sv_closed w /\ sv_deny w' = sv_deny w /\
    sv_log w' = sv_log w ++ lines /\
    Forall (loop_line filesize r) lines /\
    (PConnectionLost ∈ lines <-> len avail < filesize - r).
Proof.
  induction rounds as [|rounds IH]; intros filename filesize r w f Hfuel Hf.
  - assert (filesize <= r) by lia.
    exists w, []. cbn zeta. rewrite recv_loop_done by done.
    replace (Z.to_nat _) with 0%nat by (unfold len; lia).
    rewrite Z.add_0_r, take_0, drop_0, !app_nil_r, insert_id by done.
    repeat split; try done; [set_solver | unfold len; lia].
  - destruct (Z.le_gt_cases filesize r) as [Hle|Hlt].
    { exists w, []. cbn zeta. rewrite recv_loop_done by done.
      replace (Z.to_nat _) with 0%nat by (unfold len; lia).
      rewrite Z.add_0_r, take_0, drop_0, !app_nil_r, insert_id by done.
      repeat split; try done; [set_solver | unfold len; lia]. }
    set (k := Z.to_nat (Z.min BUFFER_SIZE (filesize - r))).
    assert (Hk : (0 < k)%nat) by (unfold k, BUFFER_SIZE; lia).
    pose proof (recv_concat k (sv_in w)) as Hcat.
    pose proof (recv_length k (sv_in w)) as Hlen.
    destruct (recv k (sv_in w)) as [chunk rest] eqn:Erecv. cbn [fst snd] in *.
    destruct chunk as [|b chunk].
    + pose proof (recv_nil k (sv_in w) Hk) as Hnil. rewrite Erecv in Hnil.
      destruct (Hnil eq_refl) as [Hempty Hrest]. cbn [snd] in Hrest. subst rest.
      eexists _, [PConnectionLost]. cbn zeta. rewrite Hempty.
      rewrite (recv_loop_lost _ _ _ _ _ [] Hlt Erecv).
      replace (Z.to_nat _) with 0%nat by (unfold len; cbn; lia).
      cbn. rewrite Z.add_0_r, app_nil_r, insert_id by done.
      clear Hnil.
      repeat split; try done;
        [constructor; [by left|constructor] | | intros _; apply list_elem_of_here].
      intros _. unfold len. cbn. lia.
    + set (c := b :: chunk) in *.
      assert (Hc : (0 < length c)%nat) by (unfold c; cbn; lia).
      assert (Hck : len c <= filesize - r) by (unfold len, k, BUFFER_SIZE in *; lia).
      rewrite (recv_loop_more _ _ _ _ _ c rest Hlt Erecv) by done.
      set (w1 := after_chunk filename filesize r c rest w).
      destruct (IH filename filesize (r + len c) w1 (f ++ c)) as (w' & lines & IH').
      { unfold len. lia. }
      { unfold w1, after_chunk. cbn. rewrite lookup_alter_eq, Hf. reflexivity. }
      cbn zeta in IH'.
      destruct IH' as (Hrun & Hfs & Hin & Hout & Hcl & Hdeny & Hlog & Hall & Hlost).
      exists w', (PProgress (r + len c) filesize :: lines). cbn zeta.
      assert (Hw1in : concat (sv_in w1) = concat rest) by reflexivity.
      rewrite Hw1in in *.
      rewrite <- Hcat.
      assert (Hn : Z.to_nat (Z.min (filesize - r) (len (c ++ concat rest)))
                   = (length c + Z.to_nat (Z.min (filesize - (r + len c)) (len (concat rest))))%nat).
      { unfold len in *. rewrite length_app. lia. }
      assert (Hl : len (c ++ concat rest) = len c + len (concat rest))
        by (unfold len; rewrite length_app; lia).
      rewrite Hn. split; [|split; [|split; [|split; [|split; [|split; [|split; [|split]]]]]]].
      * rewrite Hrun. f_equal. f_equal. unfold len. lia.
      * rewrite Hfs. unfold w1, after_chunk. cbn [sv_fs set_log set_fs set_in].
        rewrite take_app_add', <- app_assoc by done.
        apply map_eq. intros i. destruct (decide (i = filename)) as [->|Hne].
        -- by rewrite !lookup_insert_eq.
        -- rewrite !lookup_insert_ne by done. by rewrite lookup_alter_ne.
      * rewrite Hin. by rewrite drop_app_add'.
      * rewrite Hout. reflexivity.
      * rewrite Hcl. reflexivity.
      * rewrite Hdeny. reflexivity.
      * rewrite Hlog. unfold w1, after_chunk. cbn. by rewrite <- app_assoc.
      * constructor.
        -- right. eexists. split; [reflexivity|]. unfold len. lia.
        -- eapply Forall_impl; [exact Hall|]. intros l. apply loop_line_mono.
           unfold len. lia.
      * rewrite Hl, elem_of_cons, Hlost. split; [intros [?|?]; [done|lia]|].
        intros ?. right. lia.
Qed.

(** ** One connection of the receiver *)

Ltac world_simpl :=
  cbn [sv_in sv_out sv_fs sv_log sv_closed sv_deny
       set_in set_out set_log set_fs set_closed] in *.

Lemma open_wb_ok w filename :
  writable w filename ->
  open_wb filename w = (Ok tt, set_fs (<[filename := []]> (sv_fs w)) w).
Proof.
  intros (H1 & H2 & H3 & H4 & H5). unfold open_wb.
  rewrite bool_decide_eq_false_2 by done.
  rewrite bool_decide_eq_false_2 by (intros [?|?]; done).
  rewrite bool_decide_eq_false_2 by done.
  rewrite H5. reflexivity.
Qed.

Lemma parse_header_nonempty sp dg s filename filesize :
  parse_header sp dg s = Ok (filename, filesize) -> s <> [].
Proof. intros H ->. discriminate H. Qed.

Lemma handle_client_accepted sp dg w data rest s filename filesize :
  recv (Z.to_nat BUFFER_SIZE) (sv_in w) = (data, rest) ->
  utf8_decode data = Some s ->
  parse_header sp dg s = Ok (filename, filesize) ->
  writable w filename ->
  exists w' lines,
    let avail := concat rest in
    let n := Z.to_nat (Z.min filesize (len avail)) in
    handle_client sp dg w = (Ok tt, w') /\
    sv_fs w' = <[filename := take n avail]> (sv_fs w) /\
    sv_out w' = sv_out w ++ [b_ "READY"; confirmation_of filesize avail] /\
    sv_closed w' = true /\
    concat (sv_in w') = drop n avail /\
    sv_log w' = sv_log w ++ [PReceiving filename filesize] ++ lines
                  ++ [verdict_line filename filesize avail; PClosed] /\
    Forall (loop_line filesize 0) lines /\
    (PConnectionLost ∈ lines <-> len avail < filesize) /\
    sv_deny w' = sv_deny w.
Proof.
  intros Hrecv Hdec Hparse Hw.
  pose proof (parse_header_nonempty _ _ _ _ _ Hparse) as Hne.
  unfold handle_client, try_except_finally, serve_body.
  unfold bind at 1. unfold sv_recv at 1. rewrite Hrecv.
  unfold bind at 1. unfold decode, of_option. rewrite Hdec. unfold ret at 1.
  destruct s as [|c s]; [done|].
  unfold bind at 1. rewrite Hparse.
  unfold bind at 1, sv_print at 1, modify at 1.
  unfold bind at 1, sv_send at 1, modify at 1.
  unfold bind at 1. erewrite open_wb_ok by exact Hw.
  unfold bind at 1.
  match goal with |- context [recv_loop ?r ?f ?n 0 ?w0] =>
    destruct (recv_loop_spec r f n 0 w0 []) as (w1 & lines & Hloop);
      [lia | cbn; apply lookup_insert_eq |]
  end.
  cbn zeta in Hloop.
  destruct Hloop as (Hrun & Hfs & Hin & Hout & Hcl & Hdeny & Hlog & Hall & Hlost).
  rewrite Hrun. world_simpl. rewrite Z.sub_0_r, Z.add_0_l in *.
  set (avail := concat rest) in *.
  set (n := Z.to_nat (Z.min filesize (len avail))) in *.
  unfold confirmation_of, verdict_line, complete.
  destruct (Z.of_nat n =? filesize) eqn:E.
  - apply Z.eqb_eq in E.
    rewrite bool_decide_eq_true_2 by (unfold len in *; lia).
    eexists _, lines. split; [reflexivity|]. world_simpl.
    rewrite Hfs, Hout, Hlog, Hin, Hdeny, insert_insert_eq, <- !app_assoc. cbn.
    repeat split; try done; apply Hlost.
  - apply Z.eqb_neq in E.
    rewrite bool_decide_eq_false_2 by (unfold len in *; lia).
    eexists _, lines. split; [reflexivity|]. world_simpl.
    rewrite Hfs, Hout, Hlog, Hin, Hdeny, insert_insert_eq, <- !app_assoc. cbn.
    repeat split; try done; apply Hlost.
Qed.

(** ** [str.split] and the separator *)

Lemma starts_with_spec sep s : starts_with sep s = true <-> exists b, s = sep ++ b.
Proof.
  revert s. induction sep as [|c sep IH]; intros s; cbn.
  - split; [intros _; by exists s|done].
  - destruct s as [|d s].
    + split; [done|]. intros [b Hb]. discriminate.
    + rewrite andb_true_iff, N.eqb_eq, IH. split.
      * intros [-> [b ->]]. by exists b.
      * intros [b [= -> ->]]. split; [done|]. by exists b.
Qed.

Lemma str_find_Some sep s i :
  str_find sep s = Some i ->
  (i <= length s)%nat /\
  (exists b, s = take i s ++ sep ++ b) /\
  (forall a' b', s = a' ++ sep ++ b' -> (i <= length a')%nat).
Proof.
  revert i. induction s as [|d s IH]; intros i; cbn [str_find].
  - destruct (starts_with sep []) eqn:E; [|done]. intros [= <-].
    apply starts_with_spec in E as [b Hb]. split; [cbn; lia|]. split.
    + exists b. exact Hb.
    + intros. lia.
  - destruct (starts_with sep (d :: s)) eqn:E.
    + intros [= <-]. apply starts_with_spec in E as [b Hb].
      split; [cbn; lia|]. split; [by exists b|]. intros; lia.
    + destruct (str_find sep s) as [j|] eqn:Ej; [|done]. cbn. intros [= <-].
      destruct (IH j eq_refl) as (Hj & [b Hb] & Hmin). split; [cbn; lia|]. split.
      * exists b. cbn. by rewrite <- Hb.
      * intros a' b' H. destruct a' as [|x a'].
        -- exfalso. assert (starts_with sep (d :: s) = true) as E'
             by (apply starts_with_spec; by exists b').
           congruence.
        -- injection H as _ H. apply Hmin in H. cbn. lia.
Qed.

Lemma str_find_None sep s :
  str_find sep s = None <-> ~ exists a b, s = a ++ sep ++ b.
Proof.
  induction s as [|d s IH]; cbn [str_find].
  - destruct (starts_with sep []) eqn:E.
    + split; [done|]. intros H. exfalso. apply H.
      apply starts_with_spec in E as [b Hb]. by exists [], b.
    + split; [|done]. intros _ (a & b & H).
      assert (starts_with sep [] = true); [|congruence].
      apply starts_with_spec. destruct a; [by exists b|done].
  - destruct (starts_with sep (d :: s)) eqn:E.
    + split; [done|]. intros H. exfalso. apply H.
      apply starts_with_spec in E as [b Hb]. by exists [], b.
    + destruct (str_find sep s) as [j|] eqn:Ej; cbn.
      * split; [done|]. intros H. exfalso. apply H.
        apply str_find_Some in Ej as (_ & [b Hb] & _).
        exists (d :: take j s), b. cbn. by rewrite <- Hb.
      * split; [|done]. intros _ (a & b & H). destruct a as [|x a].
        -- assert (starts_with sep (d :: s) = true); [|congruence].
           apply starts_with_spec. by exists b.
        -- injection H as _ H. apply (proj1 IH eq_refl). by exists a, b.
Qed.

Lemma split_from_one rounds sep s b :
  sep <> [] -> (length s <= rounds)%nat ->
  split_from rounds sep s = [b] <-> b = s /\ str_find sep s = None.
Proof.
  intros Hsep Hr. destruct rounds as [|rounds]; cbn [split_from].
  - destruct s; [|cbn in Hr; lia]. split.
    + intros [= <-]. split; [done|]. apply str_find_None. intros (a & b' & H).
      destruct a, sep; done.
    + by intros [-> _].
  - destruct (str_find sep s) as [i|] eqn:E.
    + split; [|intros [_ ?]; done]. destruct rounds; cbn [split_from]; [done|].
      by destruct (str_find sep (drop _ s)).
    + split; [by intros [= <-]|by intros [-> _]].
Qed.

Lemma split_two sep s a b :
  sep <> [] ->
  split sep s = [a; b] <->
  exists i, str_find sep s = Some i /\ a = take i s /\
            b = drop (i + length sep) s /\ str_find sep b = None.
Proof.
  intros Hsep. unfold split.
  destruct (length s) as [|rounds] eqn:Hlen; cbn [split_from].
  - destruct s; [|done]. split; [done|]. intros (i & H & _).
    apply str_find_Some in H as (_ & [b' Hb'] & _). destruct i, sep; done.
  - destruct (str_find sep s) as [i|] eqn:E.
    + pose proof (str_find_Some _ _ _ E) as (Hi & [b' Hb'] & _).
      assert (Hlen' : (length (drop (i + length sep) s) <= rounds)%nat).
      { rewrite length_drop. destruct sep; [done|]. cbn. lia. }
      split.
      * intros [= <- H]. apply split_from_one in H as [-> H]; [|done..].
        by exists i.
      * intros (j & [= <-] & -> & -> & H). f_equal.
        by apply split_from_one.
    + split; [done|]. by intros (i & ? & _).
Qed.

(** The separator does not overlap itself: its first character occurs
    nowhere else in it. *)
Lemma separator_no_overlap a b a' b' :
  a ++ SEPARATOR ++ b = a' ++ SEPARATOR ++ b' ->
  (length a < length a')%nat -> (length a' < length a + length SEPARATOR)%nat ->
  False.
Proof.
  intros H H1 H2. apply (f_equal (fun l => l !! length a')) in H.
  rewrite (lookup_app_r a) in H by lia.
  rewrite lookup_app_l in H by lia.
  rewrite (lookup_app_r a'), Nat.sub_diag in H by lia.
  remember (length a' - length a)%nat as k eqn:Hk.
  assert (0 < k < 11)%nat as Hk' by (change (length SEPARATOR) with 11%nat in H2; lia).
  clear -H Hk'.
  do 11 (destruct k as [|k]; [cbn in H; first [lia|discriminate]|]). lia.
Qed.

Lemma split_separator s a b :
  split SEPARATOR s = [a; b] <-> once SEPARATOR s a b.
Proof.
  rewrite split_two by done. split.
  - intros (i & Hfind & -> & -> & Hnone).
    pose proof (str_find_Some _ _ _ Hfind) as (Hi & [b Hb] & Hmin).
    assert (Hb' : drop (i + length SEPARATOR) s = b).
    { rewrite Hb at 1. rewrite <- drop_drop.
      rewrite drop_app_length' by (rewrite length_take; lia).
      by rewrite drop_app_length. }
    rewrite Hb' in *. split; [done|]. intros a' b' H.
    pose proof (Hmin _ _ H) as Hle.
    assert (Hta : length (take i s) = i) by (rewrite length_take; lia).
    destruct (decide (length a' = i)) as [Heq|Hneq].
    { rewrite H, <- Heq. by rewrite take_app_length. }
    exfalso.
    destruct (decide (length a' < i + length SEPARATOR)%nat) as [Hlt|Hge].
    + rewrite Hb in H at 1.
      apply (separator_no_overlap _ _ _ _ H); lia.
    + apply str_find_None in Hnone. apply Hnone.
      exists (drop (i + length SEPARATOR) a'), b'.
      rewrite <- Hb'. rewrite H at 1.
      rewrite drop_app_le by lia. reflexivity.
  - intros [Hs Huniq]. destruct (str_find SEPARATOR s) as [i|] eqn:Hfind.
    + pose proof (str_find_Some _ _ _ Hfind) as (Hi & [b0 Hb0] & Hmin).
      pose proof (Huniq _ _ Hb0) as Ha. exists i.
      assert (Hta : length (take i s) = i) by (rewrite length_take; lia).
      assert (Hb : drop (i + length SEPARATOR) s = b).
      { rewrite Hs at 1. rewrite Ha in Hta. rewrite <- Hta.
        rewrite <- drop_drop, drop_app_length.
        by rewrite drop_app_length. }
      split; [done|]. split; [done|]. split; [done|].
      apply str_find_None. intros (a2 & b2 & H2).
      assert (a ++ SEPARATOR ++ a2 = a) as Habs.
      { apply (Huniq _ b2). rewrite Hs, H2. by rewrite <- !app_assoc. }
      apply (f_equal length) in Habs. rewrite !length_app in Habs. cbn in Habs. lia.
    + exfalso. apply str_find_None in Hfind. apply Hfind. by exists a, b.
Qed.

(** ** Header decoding *)

Lemma decode_header_spec sp dg data name size :
  decode_header sp dg data = Some (name, size) <->
  exists s a b, utf8_decode data = Some s /\ once SEPARATOR s a b /\
                name = basename a /\ py_int sp dg b = Some size.
Proof.
  unfold decode_header, parse_header. split.
  - destruct (utf8_decode data) as [s|]; [|done].
    destruct (split SEPARATOR s) as [|a [|b [|c l]]] eqn:E; try done.
    destruct (py_int sp dg b) as [n|] eqn:En; [|done].
    intros [= <- <-]. exists s, a, b. by rewrite <- split_separator.
  - intros (s & a & b & -> & Honce & -> & Hint).
    apply split_separator in Honce. by rewrite Honce, Hint.
Qed.

Lemma open_wb_cases w filename :
  writable w filename \/ exists e, open_wb filename w = (Raise e, w).
Proof.
  unfold open_wb, writable.
  destruct (bool_decide (filename = [])) eqn:E1; [right; by eexists|].
  destruct (bool_decide (filename = s_ "." \/ filename = s_ "..")) eqn:E2;
    [right; by eexists|].
  destruct (bool_decide (0%N ∈ filename)) eqn:E3; [right; by eexists|].
  destruct (sv_deny w filename) eqn:E4; [right; by eexists|]. left.
  apply bool_decide_eq_false in E1, E2, E3. tauto.
Qed.

Lemma handle_client_rejected sp dg w :
  let data := fst (recv (Z.to_nat BUFFER_SIZE) (sv_in w)) in
  decode_header sp dg data = None ->
  exists w', handle_client sp dg w = (Ok tt, w') /\
             sv_out w' = sv_out w /\ sv_fs w' = sv_fs w /\ sv_closed w' = true /\
             sv_deny w' = sv_deny w.
Proof.
  cbn zeta. unfold decode_header, handle_client, try_except_finally, serve_body.
  destruct (recv (Z.to_nat BUFFER_SIZE) (sv_in w)) as [data rest] eqn:Hrecv.
  cbn [fst]. unfold bind at 1. unfold sv_recv at 1. rewrite Hrecv.
  unfold bind at 1. unfold decode, of_option.
  destruct (utf8_decode data) as [s|]; [|intros _; by eexists].
  unfold ret at 1. destruct s as [|c s]; [intros _; by eexists|].
  unfold bind at 1.
  destruct (parse_header sp dg (c :: s)) as [p|e|] eqn:Hp; [done|..]; intros _.
  - destruct (is_ValueError e); by eexists.
  - unfold parse_header in Hp.
    destruct (split SEPARATOR (c :: s)) as [|? [|? [|? ?]]]; try done.
    by destruct (py_int sp dg _).
Qed.

Lemma handle_client_ready sp dg w filename filesize :
  let data := fst (recv (Z.to_nat BUFFER_SIZE) (sv_in w)) in
  decode_header sp dg data = Some (filename, filesize) ->
  exists w' more,
    handle_client sp dg w = (Ok tt, w') /\
    sv_out w' = sv_out w ++ b_ "READY" :: more /\
    sv_closed w' = true /\
    PReceiving filename filesize ∈ sv_log w' /\
    (forall name, name <> filename -> sv_fs w' !! name = sv_fs w !! name) /\
    (sv_fs w' = sv_fs w \/ writable w filename) /\
    sv_deny w' = sv_deny w.
Proof.
  cbn zeta. intros Hdec.
  destruct (recv (Z.to_nat BUFFER_SIZE) (sv_in w)) as [data rest] eqn:Hrecv.
  cbn [fst] in Hdec. unfold decode_header in Hdec.
  destruct (utf8_decode data) as [s|] eqn:Hs; [|done].
  destruct (parse_header sp dg s) as [p| |] eqn:Hp; [|done..].
  injection Hdec as ->.
  destruct (open_wb_cases (set_out (sv_out w ++ [b_ "READY"])
              (set_log (sv_log w ++ [PReceiving filename filesize]) (set_in rest w)))
              filename) as [Hw|[e He]].
  - destruct (handle_client_accepted sp dg w data rest s filename filesize)
      as (w' & lines & Hrun & Hfs & Hout & Hcl & _ & Hlog & _ & _ & Hdeny); [done..|].
    exists w', [confirmation_of filesize (concat rest)].
    split; [done|]. split; [done|]. split; [done|]. split; [|split; [|split]].
    + rewrite Hlog. set_solver.
    + intros name Hne. rewrite Hfs. by rewrite lookup_insert_ne.
    + by right.
    + done.
  - pose proof (parse_header_nonempty _ _ _ _ _ Hp) as Hne.
    unfold handle_client, try_except_finally, serve_body.
    unfold bind at 1. unfold sv_recv at 1. rewrite Hrecv.
    unfold bind at 1. unfold decode, of_option. rewrite Hs. unfold ret at 1.
    destruct s as [|c s]; [done|].
    unfold bind at 1. rewrite Hp.
    unfold bind at 1, sv_print at 1, modify at 1.
    unfold bind at 1, sv_send at 1, modify at 1.
    unfold bind at 1. world_simpl. rewrite He.
    destruct (is_ValueError e); eexists _, []; (split; [reflexivity|]);
      world_simpl; (split; [done|]); (split; [done|]); (split; [set_solver|]);
      (split; [done|]); (split; [by left|done]).
Qed.

(** On ASCII text [int()] does not consult the Unicode tables. *)
Lemma classify_ascii sp dg sp' dg' c :
  (c < 128)%N -> classify sp dg c = classify sp' dg' c.
Proof. intros H. unfold classify. apply N.ltb_lt in H. by rewrite H. Qed.

(** ** [os.path.basename] *)

Lemma rfind_bounds c p : -1 <= rfind c p < Z.of_nat (length p).
Proof.
  induction p as [|x r IH]; cbn [rfind length]; [lia|].
  destruct (0 <=? rfind c r) eqn:E; [lia|]. destruct (x =? c)%N; lia.
Qed.

Lemma rfind_none c p : rfind c p = -1 -> c ∉ p.
Proof.
  induction p as [|x r IH]; cbn [rfind]; [set_solver|].
  pose proof (rfind_bounds c r).
  destruct (0 <=? rfind c r) eqn:E; [apply Z.leb_le in E; lia|].
  destruct (x =? c)%N eqn:Ex; [lia|]. apply N.eqb_neq in Ex.
  apply Z.leb_gt in E. intros _. rewrite elem_of_cons. intros [?|?]; [done|].
  apply IH; [lia|done].
Qed.

Lemma rfind_last c p :
  0 <= rfind c p ->
  p !! Z.to_nat (rfind c p) = Some c /\ c ∉ drop (Z.to_nat (rfind c p + 1)) p.
Proof.
  induction p as [|x r IH]; cbn [rfind]; [lia|].
  pose proof (rfind_bounds c r).
  destruct (0 <=? rfind c r) eqn:E.
  - apply Z.leb_le in E. intros _. destruct (IH E) as [H1 H2].
    replace (Z.to_nat (rfind c r + 1)) with (S (Z.to_nat (rfind c r))) by lia.
    split; [exact H1|].
    replace (Z.to_nat (rfind c r + 1 + 1)) with (S (Z.to_nat (rfind c r + 1))) by lia.
    exact H2.
  - apply Z.leb_gt in E. destruct (x =? c)%N eqn:Ex; [|intros; lia].
    apply N.eqb_eq in Ex as ->. intros _. split; [done|].
    change (drop (Z.to_nat (0 + 1)) (c :: r)) with r.
    apply rfind_none. lia.
Qed.

(** [basename p] is what follows the last slash of [p]. *)
Lemma basename_spec p :
  (SLASH ∉ basename p) /\
  exists dir, p = dir ++ basename p /\ (dir = [] \/ exists d, dir = d ++ [SLASH]).
Proof.
  unfold basename. pose proof (rfind_bounds SLASH p) as Hb.
  destruct (Z.le_gt_cases 0 (rfind SLASH p)) as [H|H].
  - destruct (rfind_last SLASH p H) as [H1 H2]. split; [done|].
    exists (take (Z.to_nat (rfind SLASH p + 1)) p). split; [by rewrite take_drop|].
    right. exists (take (Z.to_nat (rfind SLASH p)) p).
    replace (Z.to_nat (rfind SLASH p + 1)) with (S (Z.to_nat (rfind SLASH p))) by lia.
    by apply take_S_r.
  - replace (rfind SLASH p + 1) with 0 by lia.
    change (drop (Z.to_nat 0) p) with p. split.
    + apply rfind_none. lia.
    + exists []. split; [done|by left].
Qed.

(** ** [int()] on a row of ASCII digits *)

Lemma classify_digit sp dg c :
  is_ascii_digit c = true -> classify sp dg c = CDigit (Z.of_N (c - 48)).
Proof.
  unfold is_ascii_digit, classify. intros H.
  apply andb_true_iff in H as [H1 H2].
  apply N.leb_le in H1 as H1'. apply N.leb_le in H2 as H2'.
  rewrite (proj2 (N.ltb_lt c 128)) by lia.
  rewrite (proj2 (N.eqb_neq c 32)) by lia.
  rewrite (proj2 (N.leb_gt c 13)) by lia. rewrite andb_false_r. cbn [orb].
  rewrite (proj2 (N.eqb_neq c 43)), (proj2 (N.eqb_neq c 45)),
    (proj2 (N.eqb_neq c 95)) by lia.
  by rewrite H1, H2.
Qed.

Lemma scan_ascii_digits sp dg s : forall acc,
  0 <= acc -> forallb is_ascii_digit s = true ->
  exists v, 0 <= v /\
            scan_digits acc false (map (classify sp dg) s) = Some (v, []).
Proof.
  induction s as [|c s IH]; intros acc Hacc Hs; cbn [map scan_digits forallb] in *.
  - by exists acc.
  - apply andb_true_iff in Hs as [Hc Hs]. rewrite (classify_digit _ _ _ Hc).
    apply IH; [lia|done].
Qed.

(** What the specification calls a valid size field, [int()] accepts, with
    a value that is not negative. *)
Lemma py_int_valid_size_field sp dg s :
  valid_size_field s = true -> exists n, 0 <= n /\ py_int sp dg s = Some n.
Proof.
  unfold valid_size_field. intros H. apply andb_true_iff in H as [Hne Hs].
  destruct s as [|c s]; [done|].
  destruct (scan_ascii_digits sp dg (c :: s) 0) as (v & Hv & Hscan); [lia|done|].
  exists v. split; [done|]. unfold py_int.
  cbn [forallb] in Hs. apply andb_true_iff in Hs as [Hc _].
  cbn [map] in *. rewrite (classify_digit _ _ _ Hc) in *.
  cbn [drop_while is_CSpace]. by rewrite Hscan.
Qed.

(** ** The claims about the receiver *)

(** C2, as amended.  The receiver decodes the first message as strict UTF-8
    and splits it at every occurrence of the separator.  It answers [READY]
    exactly when the bytes are valid UTF-8, the separator occurs exactly once
    and [int()] accepts what follows it; it then goes on with the basename of
    what precedes the separator and with the parsed size.  Otherwise it sends
    nothing, changes no file and closes the connection.  [int()] accepts a
    sign, surrounding white space and single underscores, so a negative size
    is accepted too; every size field of one or more digits 0 to 9 is
    accepted, with a value that is not negative. *)
Theorem header_decoding sp dg w :
  let data := fst (recv (Z.to_nat BUFFER_SIZE) (sv_in w)) in
  let w' := snd (handle_client sp dg w) in
  let accepted name size :=
    exists s a b, utf8_decode data = Some s /\ once SEPARATOR s a b /\
                  name = basename a /\ py_int sp dg b = Some size in
  fst (handle_client sp dg w) = Ok tt /\ sv_closed w' = true /\
  ((exists more, sv_out w' = sv_out w ++ b_ "READY" :: more)
   <-> exists name size, accepted name size) /\
  ((~ exists name size, accepted name size) ->
   sv_out w' = sv_out w /\ sv_fs w' = sv_fs w) /\
  (forall name size, accepted name size -> PReceiving name size ∈ sv_log w') /\
  (forall s a b, utf8_decode data = Some s -> once SEPARATOR s a b ->
                 valid_size_field b = true ->
                 exists size, 0 <= size /\ accepted (basename a) size).
Proof.
  cbn zeta.
  assert (Hvalid : forall s a b,
            utf8_decode (fst (recv (Z.to_nat BUFFER_SIZE) (sv_in w))) = Some s ->
            once SEPARATOR s a b -> valid_size_field b = true ->
            exists size, 0 <= size /\
              exists s0 a0 b0,
                utf8_decode (fst (recv (Z.to_nat BUFFER_SIZE) (sv_in w))) = Some s0 /\
                once SEPARATOR s0 a0 b0 /\ basename a = basename a0 /\
                py_int sp dg b0 = Some size).
  { intros s a b Hs Honce Hv.
    destruct (py_int_valid_size_field sp dg b Hv) as (n & Hn & Hint).
    exists n. split; [done|]. by exists s, a, b. }
  destruct (decode_header sp dg (fst (recv (Z.to_nat BUFFER_SIZE) (sv_in w))))
    as [[name size]|] eqn:Hd.
  - pose proof (proj1 (decode_header_spec _ _ _ _ _) Hd) as Hacc.
    destruct (handle_client_ready sp dg w name size Hd)
      as (w' & more & Hrun & Hout & Hcl & Hlog & _ & _ & _).
    rewrite Hrun. cbn [fst snd]. split; [done|]. split; [done|].
    split; [|split; [|split; [|done]]].
    + split; [intros _; by exists name, size|intros _; by exists more].
    + intros Hno. exfalso. apply Hno. by exists name, size.
    + intros name' size' Hacc'. apply decode_header_spec in Hacc'.
      rewrite Hd in Hacc'. by injection Hacc' as <- <-.
  - destruct (handle_client_rejected sp dg w Hd) as (w' & Hrun & Hout & Hfs & Hcl & _).
    rewrite Hrun. cbn [fst snd]. split; [done|]. split; [done|].
    assert (Hno : ~ exists name size s a b,
               utf8_decode (fst (recv (Z.to_nat BUFFER_SIZE) (sv_in w))) = Some s /\
               once SEPARATOR s a b /\ name = basename a /\
               py_int sp dg b = Some size).
    { intros (name & size & Hacc). apply decode_header_spec in Hacc. congruence. }
    split; [|split; [|split; [|done]]].
    + split; [|intros H; by apply Hno in H]. intros [more Hmore].
      rewrite Hout in Hmore. apply (f_equal length) in Hmore.
      rewrite length_app in Hmore. cbn in Hmore. lia.
    + done.
    + intros name size Hacc. exfalso. apply Hno. by exists name, size.
Qed.

(** C2, the claim as stated fails twice.  The header [f<SEPARATOR>-5] has
    the separator and a size field that is no non-negative decimal integer,
    yet the receiver answers [READY] (and later [FAILED]).  And a header
    that starts with the byte 0xFF has the separator and the size field [5],
    yet the receiver sends nothing. *)
Lemma header_decoding_counterexample :
  split SEPARATOR (s_ "f<SEPARATOR>-5") = [s_ "f"; s_ "-5"] /\
  valid_size_field (s_ "-5") = false /\
  sv_out (snd (handle_client no_space no_decimal
                 (fresh_server [b_ "f<SEPARATOR>-5"])))
  = [b_ "READY"; b_ "FAILED"] /\
  valid_size_field (s_ "5") = true /\
  sv_out (snd (handle_client no_space no_decimal
                 (fresh_server [xff :: b_ "f<SEPARATOR>5"])))
  = [].
Proof. vm_compute. repeat split; reflexivity. Qed.

(** C5.  When the peer closes before [filesize] bytes have arrived, the
    body-read loop ends (the handler returns), fewer than [filesize] bytes
    were counted, the receiver sends [FAILED], and the file holds the bytes
    that did arrive. *)
Theorem premature_disconnect sp dg w filename filesize :
  let data := fst (recv (Z.to_nat BUFFER_SIZE) (sv_in w)) in
  let rest := snd (recv (Z.to_nat BUFFER_SIZE) (sv_in w)) in
  decode_header sp dg data = Some (filename, filesize) ->
  writable w filename ->
  len (concat rest) < filesize ->
  exists w' lines,
    handle_client sp dg w = (Ok tt, w') /\
    sv_log w' = sv_log w ++ [PReceiving filename filesize] ++ lines
                  ++ [PIncomplete (len (concat rest)) filesize; PClosed] /\
    PConnectionLost ∈ lines /\
    sv_out w' = sv_out w ++ [b_ "READY"; b_ "FAILED"] /\
    sv_fs w' !! filename = Some (concat rest) /\
    sv_closed w' = true.
Proof.
  cbn zeta. destruct (recv (Z.to_nat BUFFER_SIZE) (sv_in w)) as [data rest] eqn:Hrecv.
  cbn [fst snd]. intros Hd Hw Hshort. unfold decode_header in Hd.
  destruct (utf8_decode data) as [s|] eqn:Hs; [|done].
  destruct (parse_header sp dg s) as [p| |] eqn:Hp; [|done..]. injection Hd as ->.
  destruct (handle_client_accepted sp dg w data rest s filename filesize)
    as (w' & lines & Hrun & Hfs & Hout & Hcl & _ & Hlog & _ & Hlost & _); [done..|].
  exists w', lines. cbn zeta in *.
  assert (Hn : Z.to_nat (Z.min filesize (len (concat rest))) = length (concat rest))
    by (unfold len in *; lia).
  unfold confirmation_of, verdict_line, complete in *.
  rewrite bool_decide_eq_false_2 in * by lia. rewrite Hn in *.
  split; [done|]. split; [done|]. split; [by apply Hlost|]. split; [done|].
  split; [|done]. rewrite Hfs, lookup_insert_eq, take_ge; [done|lia].
Qed.

Lemma premature_disconnect_witness :
  let w := fresh_server [b_ "a.txt<SEPARATOR>5"; b_ "he"] in
  exists w' lines,
    handle_client no_space no_decimal w = (Ok tt, w') /\
    sv_log w' = [PReceiving (s_ "a.txt") 5] ++ lines
                  ++ [PIncomplete 2 5; PClosed] /\
    PConnectionLost ∈ lines /\
    sv_out w' = [b_ "READY"; b_ "FAILED"] /\
    sv_fs w' !! s_ "a.txt" = Some (b_ "he") /\
    sv_closed w' = true.
Proof.
  apply (premature_disconnect no_space no_decimal
           (fresh_server [b_ "a.txt<SEPARATOR>5"; b_ "he"]) (s_ "a.txt") 5).
  - vm_compute. reflexivity.
  - repeat split; try discriminate. vm_compute. intros H.
    repeat (apply elem_of_cons in H as [H|H]; [discriminate|]).
    by apply elem_of_nil in H.
  - vm_compute. reflexivity.
Defined.

(** C8.  Whatever precedes the separator in an accepted header, the
    receiver takes what follows the last slash of it as the name: a name
    without a slash.  When a file of that name can be created in the working
    directory (so the name is neither empty nor [.] nor [..]), the receiver
    stores under exactly that name the bytes of the body it received, and
    changes no other file; when it cannot, no file changes at all. *)
Theorem basename_stripping sp dg w s a b size :
  let data := fst (recv (Z.to_nat BUFFER_SIZE) (sv_in w)) in
  let avail := concat (snd (recv (Z.to_nat BUFFER_SIZE) (sv_in w))) in
  let w' := snd (handle_client sp dg w) in
  utf8_decode data = Some s -> once SEPARATOR s a b -> py_int sp dg b = Some size ->
  (SLASH ∉ basename a) /\
  (exists dir, a = dir ++ basename a /\ (dir = [] \/ exists d, dir = d ++ [SLASH])) /\
  (forall name, name <> basename a -> sv_fs w' !! name = sv_fs w !! name) /\
  (writable w (basename a) ->
   sv_fs w' = <[basename a := take (Z.to_nat (Z.min size (len avail))) avail]> (sv_fs w)) /\
  (~ writable w (basename a) -> sv_fs w' = sv_fs w).
Proof.
  cbn zeta. intros Hs Honce Hint.
  assert (Hd : decode_header sp dg (fst (recv (Z.to_nat BUFFER_SIZE) (sv_in w)))
               = Some (basename a, size))
    by (apply decode_header_spec; by exists s, a, b).
  destruct (basename_spec a) as [Hslash Hdir].
  split; [done|]. split; [done|].
  destruct (recv (Z.to_nat BUFFER_SIZE) (sv_in w)) as [data rest] eqn:Hrecv.
  cbn [fst snd] in *.
  pose proof (handle_client_ready sp dg w (basename a) size) as Hready.
  cbn zeta in Hready. rewrite Hrecv in Hready.
  destruct (Hready Hd) as (w' & more & Hrun & _ & _ & _ & Hother & Hfs & _).
  rewrite Hrun. cbn [snd]. split; [done|]. split.
  - intros Hw. unfold decode_header in Hd. rewrite Hs in Hd.
    destruct (parse_header sp dg s) as [p| |] eqn:Hp; [|done..]. injection Hd as ->.
    destruct (handle_client_accepted sp dg w data rest s (basename a) size)
      as (w'' & lines & Hrun' & Hfs' & _); [done..|].
    rewrite Hrun in Hrun'. by injection Hrun' as <-.
  - intros Hnw. by destruct Hfs as [Hfs|Hw].
Qed.

Lemma basename_stripping_witness :
  let w := fresh_server [b_ "../d/a.txt<SEPARATOR>2"; b_ "hi"] in
  let avail := concat (snd (recv (Z.to_nat BUFFER_SIZE) (sv_in w))) in
  let w' := snd (handle_client no_space no_decimal w) in
  (SLASH ∉ basename (s_ "../d/a.txt")) /\
  (exists dir, s_ "../d/a.txt" = dir ++ basename (s_ "../d/a.txt") /\
               (dir = [] \/ exists d, dir = d ++ [SLASH])) /\
  (forall name, name <> basename (s_ "../d/a.txt") ->
                sv_fs w' !! name = sv_fs w !! name) /\
  (writable w (basename (s_ "../d/a.txt")) ->
   sv_fs w' = <[basename (s_ "../d/a.txt") :=
                  take (Z.to_nat (Z.min 2 (len avail))) avail]> (sv_fs w)) /\
  (~ writable w (basename (s_ "../d/a.txt")) -> sv_fs w' = sv_fs w).
Proof.
  apply (basename_stripping no_space no_decimal
           (fresh_server [b_ "../d/a.txt<SEPARATOR>2"; b_ "hi"])
           (s_ "../d/a.txt<SEPARATOR>2") (s_ "../d/a.txt") (s_ "2") 2).
  - vm_compute. reflexivity.
  - apply split_separator. vm_compute. reflexivity.
  - vm_compute. reflexivity.
Defined.

(** C9.  In the body-read loop every value [bytes_received] takes after a
    round is at most [filesize]; the loop ends; in the end [bytes_received]
    is the smaller of [filesize] and the number of bytes that arrived, the
    file holds exactly that many bytes of the stream, and for a size that is
    not negative [bytes_received = filesize] holds exactly when the stream
    delivered [filesize] bytes. *)
Theorem receiver_byte_count filename filesize w f :
  sv_fs w !! filename = Some f ->
  let avail := concat (sv_in w) in
  exists w' lines received,
    recv_loop (Z.to_nat filesize) filename filesize 0 w = (Ok received, w') /\
    sv_log w' = sv_log w ++ lines /\
    (forall l, l ∈ lines ->
       l = PConnectionLost \/
       exists b, l = PProgress b filesize /\ 0 < b <= filesize) /\
    received = Z.max 0 (Z.min filesize (len avail)) /\
    sv_fs w' !! filename = Some (f ++ take (Z.to_nat received) avail) /\
    (0 <= filesize ->
     received <= filesize /\ (received = filesize <-> filesize <= len avail)).
Proof.
  intros Hf. cbn zeta.
  destruct (recv_loop_spec (Z.to_nat filesize) filename filesize 0 w f)
    as (w' & lines & H); [lia|done|]. cbn zeta in H.
  destruct H as (Hrun & Hfs & _ & _ & _ & _ & Hlog & Hall & _).
  rewrite Z.sub_0_r, Z.add_0_l in *.
  exists w', lines, (Z.of_nat (Z.to_nat (Z.min filesize (len (concat (sv_in w)))))).
  split; [done|]. split; [done|]. split; [|split; [|split]].
  - intros l Hl. rewrite Forall_forall in Hall. exact (Hall l Hl).
  - lia.
  - rewrite Hfs, lookup_insert_eq. by rewrite Nat2Z.id.
  - intros Hpos. unfold len. lia.
Qed.

Lemma receiver_byte_count_witness :
  let w := {| sv_in := [b_ "he"; b_ "llo"; b_ "extra"]; sv_out := [];
              sv_fs := {[ s_ "a.txt" := [] ]}; sv_deny := fun _ => None;
              sv_closed := false; sv_log := [] |} in
  exists w' lines received,
    recv_loop (Z.to_nat 5) (s_ "a.txt") 5 0 w = (Ok received, w') /\
    sv_log w' = lines /\
    (forall l, l ∈ lines ->
       l = PConnectionLost \/ exists b, l = PProgress b 5 /\ 0 < b <= 5) /\
    received = Z.max 0 (Z.min 5 (len (b_ "helloextra"))) /\
    sv_fs w' !! s_ "a.txt" = Some (take (Z.to_nat received) (b_ "helloextra")) /\
    (0 <= 5 -> received <= 5 /\ (received = 5 <-> 5 <= len (b_ "helloextra"))).
Proof.
  apply (receiver_byte_count (s_ "a.txt") 5
           {| sv_in := [b_ "he"; b_ "llo"; b_ "extra"]; sv_out := [];
              sv_fs := {[ s_ "a.txt" := [] ]}; sv_deny := fun _ => None;
              sv_closed := false; sv_log := [] |} []).
  vm_compute. reflexivity.
Defined.

(** ** The sender's streaming loop *)

Lemma sends_app tr tr' : sends (tr ++ tr') = sends tr ++ sends tr'.
Proof.
  induction tr as [|e tr IH]; [done|]. destruct e; cbn; by rewrite ?IH.
Qed.

Lemma sends_stream_events filesize bytes_sent cs :
  sends (stream_events filesize bytes_sent cs) = cs.
Proof.
  revert bytes_sent. induction cs as [|c cs IH]; intros; cbn; [done|].
  by rewrite IH.
Qed.

Lemma recvs_stream_events filesize bytes_sent cs :
  filter is_recv (stream_events filesize bytes_sent cs) = [].
Proof. revert bytes_sent. induction cs as [|c cs IH]; intros; cbn; [done|apply IH]. Qed.

Lemma opens_stream_events filesize bytes_sent cs :
  filter is_open (stream_events filesize bytes_sent cs) = [].
Proof. revert bytes_sent. induction cs as [|c cs IH]; intros; cbn; [done|apply IH]. Qed.

Lemma take_nil_inv {A} n (l : list A) : (0 < n)%nat -> take n l = [] -> l = [].
Proof. destruct n, l; cbn; intros; try done; lia. Qed.

Lemma chunks_from_concat rounds : forall file,
  (length file < rounds)%nat -> concat (chunks_from rounds file) = file.
Proof.
  induction rounds as [|rounds IH]; intros file Hlen; [lia|].
  cbn [chunks_from].
  destruct (take (Z.to_nat BUFFER_SIZE) file) as [|b c] eqn:E.
  - symmetry. apply (take_nil_inv (Z.to_nat BUFFER_SIZE)); [unfold BUFFER_SIZE; lia|done].
  - cbn [concat]. rewrite IH.
    + rewrite <- E. apply take_drop.
    + destruct file; [done|]. rewrite length_drop. cbn in *. unfold BUFFER_SIZE. lia.
Qed.

Lemma chunks_from_sizes rounds : forall file,
  Forall (fun c => 0 < len c <= BUFFER_SIZE) (chunks_from rounds file).
Proof.
  induction rounds as [|rounds IH]; intros file; [constructor|].
  cbn [chunks_from].
  destruct (take (Z.to_nat BUFFER_SIZE) file) as [|b c] eqn:E; constructor.
  - rewrite <- E. unfold len. rewrite length_take.
    apply (f_equal length) in E. rewrite length_take in E. cbn in E.
    unfold BUFFER_SIZE in *. lia.
  - apply IH.
Qed.

(** How many chunks, and how long the last one is. *)
Lemma chunks_from_count rounds : forall file,
  (length file < rounds)%nat ->
  let n := len file in
  let k := Z.of_nat (length (chunks_from rounds file)) in
  BUFFER_SIZE * (k - 1) < n <= BUFFER_SIZE * k /\
  (0 < n ->
   exists c, last (chunks_from rounds file) = Some c /\
             len c = n - BUFFER_SIZE * (k - 1)).
Proof.
  induction rounds as [|rounds IH]; intros file Hlen; [lia|].
  cbn zeta. cbn [chunks_from].
  destruct (take (Z.to_nat BUFFER_SIZE) file) as [|b c] eqn:E.
  - apply (take_nil_inv (Z.to_nat BUFFER_SIZE)) in E as ->; [|unfold BUFFER_SIZE; lia].
    unfold len, BUFFER_SIZE. cbn. lia.
  - assert (Hc : len (b :: c) = Z.min BUFFER_SIZE (len file)).
    { rewrite <- E. unfold len. rewrite length_take. unfold BUFFER_SIZE. lia. }
    assert (Hd : len (drop (Z.to_nat BUFFER_SIZE) file) = len file - len (b :: c)).
    { rewrite Hc. unfold len. rewrite length_drop. unfold BUFFER_SIZE. lia. }
    assert (Hpos : 0 < len (b :: c)) by (unfold len; cbn; lia).
    destruct (IH (drop (Z.to_nat BUFFER_SIZE) file)) as [Hk Hlast].
    { rewrite length_drop. destruct file; [done|]. cbn in *. unfold BUFFER_SIZE. lia. }
    cbn zeta in Hk, Hlast. rewrite Hd in Hk, Hlast.
    set (rest := chunks_from rounds (drop (Z.to_nat BUFFER_SIZE) file)) in *.
    cbn [length]. rewrite Nat2Z.inj_succ.
    destruct (Z.le_gt_cases (len file) BUFFER_SIZE) as [Hsmall|Hbig].
    + assert (Hrest : rest = []).
      { destruct rest as [|c1 rest']; [done|]. exfalso. cbn [length] in Hk.
        unfold BUFFER_SIZE in *. lia. }
      rewrite Hrest in *. cbn [length last]. split; [unfold BUFFER_SIZE in *; lia|].
      intros _. exists (b :: c). split; [done|]. unfold BUFFER_SIZE in *. lia.
    + split; [unfold BUFFER_SIZE in *; lia|]. intros _.
      destruct Hlast as (c' & Hc' & Hlen'); [unfold BUFFER_SIZE in *; lia|].
      exists c'. split.
      * destruct rest; [done|]. exact Hc'.
      * rewrite Hlen'. unfold BUFFER_SIZE in *. lia.
Qed.

Section SenderFacts.
Context (env : client_env).

Lemma cl_send_ok data tr :
  net_send env (length (filter is_send tr)) = None ->
  cl_send env data tr = (Ok tt, tr ++ [ESend data]).
Proof. intros H. unfold cl_send. by rewrite H. Qed.

(** With every [send] going through and a size that is not 0 unless the file
    is empty, the loop sends the chunks in order and counts their bytes. *)
Lemma stream_loop_spec rounds : forall filesize file bytes_sent tr,
  (forall i, net_send env i = None) ->
  (filesize <> 0 \/ file = []) ->
  (length file < rounds)%nat ->
  stream_loop env rounds filesize file bytes_sent tr
  = (Ok (bytes_sent + len file),
     tr ++ stream_events filesize bytes_sent (chunks_from rounds file)).
Proof.
  induction rounds as [|rounds IH]; intros filesize file bytes_sent tr Hsend Hz Hlen;
    [lia|].
  cbn [stream_loop chunks_from].
  destruct (take (Z.to_nat BUFFER_SIZE) file) as [|b c] eqn:E.
  - apply (take_nil_inv (Z.to_nat BUFFER_SIZE)) in E as ->; [|unfold BUFFER_SIZE; lia].
    unfold ret, len. cbn. by rewrite Z.add_0_r, app_nil_r.
  - assert (Hne : file <> []) by (intros ->; done).
    destruct Hz as [Hz|Hz]; [|done].
    unfold bind at 1. rewrite cl_send_ok by apply Hsend.
    apply Z.eqb_neq in Hz as Hz'. rewrite Hz'.
    unfold bind at 1, ret at 1. unfold bind at 1, emit at 1, modify at 1.
    rewrite IH; [|done|by left|].
    + cbn [stream_events]. rewrite <- !app_assoc. cbn [app]. f_equal. f_equal.
      rewrite <- (take_drop (Z.to_nat BUFFER_SIZE) file) at 2.
      rewrite E. unfold len. rewrite length_app. lia.
    + rewrite length_drop. destruct file; [done|]. cbn in *. unfold BUFFER_SIZE. lia.
Qed.

(** Whatever the surroundings do, the loop returns or raises within
    [length file + 1] rounds, and only adds to the trace. *)
Lemma stream_loop_total rounds : forall filesize file bytes_sent tr,
  (length file < rounds)%nat ->
  exists r tr',
    stream_loop env rounds filesize file bytes_sent tr = (r, tr ++ tr') /\
    r <> Timeout /\ filter is_open tr' = [] /\ filter is_recv tr' = [] /\
    filter is_close tr' = [].
Proof.
  induction rounds as [|rounds IH]; intros filesize file bytes_sent tr Hlen; [lia|].
  cbn [stream_loop].
  destruct (take (Z.to_nat BUFFER_SIZE) file) as [|b c] eqn:E.
  - exists (Ok bytes_sent), []. by rewrite app_nil_r.
  - unfold bind at 1. unfold cl_send.
    destruct (net_send env _) as [e|].
    { exists (Raise e), [ESend (b :: c)]. done. }
    destruct (filesize =? 0).
    { exists (Raise ZeroDivisionError), [ESend (b :: c)]. done. }
    unfold bind at 1, ret at 1. unfold bind at 1, emit at 1, modify at 1.
    edestruct (IH filesize (drop (Z.to_nat BUFFER_SIZE) file)
                 (bytes_sent + len (b :: c))) as (r & tr' & Hrun & Hr & Ho & Hv & Hc).
    { rewrite length_drop. destruct file; [done|]. cbn in *. unfold BUFFER_SIZE. lia. }
    rewrite Hrun.
    exists r, (ESend (b :: c) :: EProgress (bytes_sent + len (b :: c)) filesize :: tr').
    rewrite <- !app_assoc. done.
Qed.

End SenderFacts.

(** ** [send_file] *)

Section SendFileFacts.
Context (env : client_env).

Lemma cl_recv_at data tr :
  net_recv env (length (filter is_recv tr)) = inr data ->
  cl_recv env tr = (Ok data, tr ++ [ERecv]).
Proof. intros H. unfold cl_recv. by rewrite H. Qed.


End SendFileFacts.

(** ** The claims about the sender *)

(** C3.  A path that is not an existing regular file, or not readable, is
    turned away by [main] before [send_file] is called: the round prints
    one of the two file errors and does nothing on the network. *)
Theorem file_access_precondition env filepath tr :
  fs_isfile env filepath && fs_access env filepath = false ->
  exists line tr',
    main_iteration env filepath tr = (Ok tt, tr ++ tr') /\
    tr' = [EPrint line] /\
    (line = PNoSuchFile \/ line = PCannotRead) /\
    filter is_network tr' = [] /\ filter is_close tr' = [].
Proof.
  intros H. unfold main_iteration.
  destruct (fs_isfile env filepath); cbn [negb].
  - destruct (fs_access env filepath); [done|].
    exists PCannotRead, [EPrint PCannotRead]. by auto.
  - exists PNoSuchFile, [EPrint PNoSuchFile]. by auto.
Qed.

Lemma file_access_precondition_witness :
  let env := good_env (s_ "a.txt") (b_ "hello") [] in
  exists line tr',
    main_iteration env (s_ "missing.txt") [] = (Ok tt, tr') /\
    tr' = [EPrint line] /\
    (line = PNoSuchFile \/ line = PCannotRead) /\
    filter is_network tr' = [] /\ filter is_close tr' = [].
Proof.
  apply (file_access_precondition (good_env (s_ "a.txt") (b_ "hello") [])
           (s_ "missing.txt") []).
  vm_compute. reflexivity.
Defined.

(** [send_file] on its own connects before it looks at the file: the check
    of C3 is the caller's. *)
Lemma send_file_connects_first :
  send_file (good_env (s_ "a.txt") (b_ "hello") []) (s_ "missing.txt") []
  = (Ok false,
     [EConnect; EGetSize (s_ "missing.txt"); EPrint PFileNotFound;
      EClose; EPrint PConnectionClosed]).
Proof. vm_compute. reflexivity. Qed.

Ltac trace_tail :=
  eexists; split;
  [cbv beta iota zeta delta [bind cl_print emit modify ret];
   rewrite <- ?app_assoc; cbn [app]; reflexivity|].

(** C4.  When the answer to the header is anything but [READY] (or no
    answer comes), [send_file] returns [False]; at most one message was
    sent, the header; the file was not opened and no progress was printed. *)
Theorem bad_handshake env filepath tr :
  (forall data, net_recv env (length (filter is_recv tr)) = inr data ->
                utf8_decode data <> Some READY) ->
  exists tr',
    send_file env filepath tr = (Ok false, tr ++ tr') /\
    (sends tr' = [] \/
     exists n header,
       fs_getsize env filepath = inr n /\
       utf8_encode (basename filepath ++ SEPARATOR ++ str_of_int n) = Some header /\
       sends tr' = [header]) /\
    filter is_open tr' = [] /\ filter is_progress tr' = [].
Proof.
  intros Hresp. unfold send_file, send_file_body.
  unfold bind at 1. unfold cl_connect. unfold bind at 1, emit at 1, modify at 1.
  destruct (net_connect env) as [e|] eqn:Hconn.
  { unfold raise. destruct e; trace_tail; cbn; auto. }
  unfold ret at 1.
  unfold bind at 1. unfold cl_getsize. unfold bind at 1, emit at 1, modify at 1.
  destruct (fs_getsize env filepath) as [e|n] eqn:Hsize; unfold of_sum at 1.
  { unfold raise. destruct e; trace_tail; cbn; auto. }
  unfold ret at 1.
  unfold bind at 1. unfold encode, of_option.
  destruct (utf8_encode _) as [header|] eqn:Henc.
  2:{ unfold raise. trace_tail. cbn. auto. }
  unfold ret at 1. unfold bind at 1. unfold cl_send at 1.
  destruct (net_send env _) as [e|].
  { destruct e; trace_tail; cbn; (split; [right; by exists n, header|done]). }
  unfold bind at 1. unfold cl_recv at 1.
  rewrite !filter_app. cbn [filter]. rewrite !app_nil_r.
  destruct (net_recv env (length (filter is_recv tr))) as [e|data] eqn:Hrecv;
    unfold of_sum at 1.
  { unfold raise. destruct e; trace_tail; cbn; (split; [right; by exists n, header|done]). }
  unfold ret at 1. unfold bind at 1. unfold decode at 1, of_option.
  specialize (Hresp data eq_refl).
  destruct (utf8_decode data) as [response|].
  2:{ unfold raise. trace_tail. cbn. split; [right; by exists n, header|done]. }
  unfold ret at 1.
  rewrite bool_decide_eq_false_2 by congruence. cbn [negb].
  unfold bind at 1, cl_print at 1, emit at 1, modify at 1. unfold ret.
  trace_tail. cbn. split; [right; by exists n, header|done].
Qed.

Lemma bad_handshake_witness :
  let env := good_env (s_ "a.txt") (b_ "hello") [b_ "BUSY"] in
  exists tr',
    send_file env (s_ "a.txt") [] = (Ok false, tr') /\
    (sends tr' = [] \/
     exists n header,
       fs_getsize env (s_ "a.txt") = inr n /\
       utf8_encode (basename (s_ "a.txt") ++ SEPARATOR ++ str_of_int n) = Some header /\
       sends tr' = [header]) /\
    filter is_open tr' = [] /\ filter is_progress tr' = [].
Proof.
  apply (bad_handshake (good_env (s_ "a.txt") (b_ "hello") [b_ "BUSY"]) (s_ "a.txt") []).
  intros data H. vm_compute in H. injection H as <-. vm_compute. discriminate.
Defined.

(** C6.  For a file of [n] bytes whose size was reported as [n], and with
    every [send] going through, the streaming loop makes [k] writes where
    [k] is [n / BUFFER_SIZE] rounded up; no write is longer than
    [BUFFER_SIZE]; the last one has [n mod BUFFER_SIZE] bytes, or
    [BUFFER_SIZE] when that is 0; the writes are the file, in order; and
    [bytes_sent] ends as [n]. *)
Theorem chunking_determinism env file tr :
  (forall i, net_send env i = None) ->
  let n := len file in
  exists tr',
    stream_loop env (S (length file)) n file 0 tr = (Ok n, tr ++ tr') /\
    let writes := sends tr' in
    let k := Z.of_nat (length writes) in
    k = (n + BUFFER_SIZE - 1) / BUFFER_SIZE /\
    BUFFER_SIZE * (k - 1) < n <= BUFFER_SIZE * k /\
    Forall (fun c => 0 < len c <= BUFFER_SIZE) writes /\
    (0 < n ->
     exists c, last writes = Some c /\
               len c = if n mod BUFFER_SIZE =? 0 then BUFFER_SIZE
                       else n mod BUFFER_SIZE) /\
    concat writes = file.
Proof.
  intros Hsend. cbn zeta.
  exists (stream_events (len file) 0 (chunks_from (S (length file)) file)).
  split.
  { rewrite stream_loop_spec; [done|done| |lia].
    destruct file; [by right|left]. unfold len. cbn. lia. }
  rewrite sends_stream_events.
  destruct (chunks_from_count (S (length file)) file) as [Hk Hlast]; [lia|].
  cbn zeta in Hk, Hlast.
  set (k := Z.of_nat (length (chunks_from (S (length file)) file))) in *.
  split; [|split; [|split; [|split]]].
  - unfold BUFFER_SIZE in *. Z.to_euclidean_division_equations. lia.
  - done.
  - apply chunks_from_sizes.
  - intros Hpos. destruct (Hlast Hpos) as (c & Hc & Hlen). exists c. split; [done|].
    rewrite Hlen. unfold BUFFER_SIZE in *.
    destruct (len file mod 1024 =? 0) eqn:E;
      [apply Z.eqb_eq in E|apply Z.eqb_neq in E];
      Z.to_euclidean_division_equations; lia.
  - apply chunks_from_concat. lia.
Qed.

Lemma chunking_determinism_witness :
  let env := good_env (s_ "a.txt") (b_ "hello") [] in
  exists tr',
    stream_loop env 6 5 (b_ "hello") 0 [] = (Ok 5, tr') /\
    let writes := sends tr' in
    let k := Z.of_nat (length writes) in
    k = (5 + BUFFER_SIZE - 1) / BUFFER_SIZE /\
    BUFFER_SIZE * (k - 1) < 5 <= BUFFER_SIZE * k /\
    Forall (fun c => 0 < len c <= BUFFER_SIZE) writes /\
    (0 < 5 ->
     exists c, last writes = Some c /\
               len c = if 5 mod BUFFER_SIZE =? 0 then BUFFER_SIZE
                       else 5 mod BUFFER_SIZE) /\
    concat writes = b_ "hello".
Proof.
  apply (chunking_determinism (good_env (s_ "a.txt") (b_ "hello") []) (b_ "hello") []).
  intros i. reflexivity.
Defined.

Lemma no_close_cons e tr :
  is_close e = false -> filter is_close tr = [] -> filter is_close (e :: tr) = [].
Proof. intros He Htr. rewrite filter_cons. destruct e; try done. Qed.

Lemma no_close_app tr tr' :
  filter is_close tr = [] -> filter is_close tr' = [] ->
  filter is_close (tr ++ tr') = [].
Proof. intros H H'. by rewrite filter_app, H, H'. Qed.

Ltac no_close :=
  repeat first [ assumption | reflexivity
               | apply no_close_cons; [reflexivity|] | apply no_close_app ].

Section Totality.
Context (env : client_env).

Ltac body_tail :=
  eexists _, _; split;
  [cbv beta iota zeta delta [bind cl_print emit modify ret raise];
   rewrite <- ?app_assoc; cbn [app]; reflexivity|split; [done|no_close]].

Lemma send_file_body_total filepath tr :
  exists r tr1,
    send_file_body env filepath tr = (r, tr ++ tr1) /\
    r <> Timeout /\ filter is_close tr1 = [].
Proof.
  unfold send_file_body.
  unfold bind at 1. unfold cl_connect. unfold bind at 1, emit at 1, modify at 1.
  destruct (net_connect env) as [e|]; [body_tail|]. unfold ret at 1.
  unfold bind at 1. unfold cl_getsize. unfold bind at 1, emit at 1, modify at 1.
  destruct (fs_getsize env filepath) as [e|n]; unfold of_sum at 1; [body_tail|].
  unfold ret at 1. unfold bind at 1. unfold encode, of_option.
  destruct (utf8_encode _) as [header|]; [|body_tail].
  unfold ret at 1. unfold bind at 1. unfold cl_send at 1.
  destruct (net_send env _) as [e|]; [body_tail|].
  unfold bind at 1. unfold cl_recv at 1.
  destruct (net_recv env _) as [e|data]; unfold of_sum at 1; [body_tail|].
  unfold ret at 1. unfold bind at 1. unfold decode at 1, of_option.
  destruct (utf8_decode data) as [response|]; [|body_tail].
  unfold ret at 1. destruct (negb (bool_decide (response = READY))); [body_tail|].
  unfold bind at 1. unfold cl_open_rb. unfold bind at 1, emit at 1, modify at 1.
  destruct (fs_open env filepath) as [e|file]; unfold of_sum at 1; [body_tail|].
  unfold ret at 1. unfold bind at 1.
  match goal with |- context [stream_loop env ?r ?n ?f ?b ?t] =>
    destruct (stream_loop_total env r n f b t) as (res & tr' & Hrun & Hres & _ & _ & Hcl);
      [lia|]
  end.
  rewrite Hrun. destruct res as [bytes_sent|e|]; [| |done].
  2:{ eexists _, _. split; [rewrite <- !app_assoc; cbn [app]; reflexivity|].
      split; [done|]. no_close. }
  unfold bind at 1. unfold cl_recv at 1.
  destruct (net_recv env _) as [e|data']; unfold of_sum at 1.
  { eexists _, _. split; [unfold raise; rewrite <- !app_assoc; cbn [app]; reflexivity|].
    split; [done|]. no_close. }
  unfold ret at 1. unfold bind at 1. unfold decode at 1, of_option.
  destruct (utf8_decode data') as [confirmation|].
  2:{ eexists _, _. split; [unfold raise; rewrite <- !app_assoc; cbn [app]; reflexivity|].
      split; [done|]. no_close. }
  unfold ret at 1.
  destruct (bool_decide (confirmation = SUCCESS));
    (eexists _, _; split;
     [cbv beta iota zeta delta [bind cl_print emit modify ret];
      rewrite <- !app_assoc; cbn [app]; reflexivity|];
     split; [done|]; no_close).
Qed.

End Totality.

(** On a standard output that prints every string: whatever the path and
    whatever the connection and the file system do, [send_file] returns
    [True] or [False]: it raises nothing and its loop ends.  The socket is
    closed exactly once, as the last thing but the final line printed. *)
Lemma sender_totality env filepath tr :
  exists b tr',
    send_file env filepath tr
    = (Ok b, tr ++ tr' ++ [EClose; EPrint PConnectionClosed]) /\
    filter is_close tr' = [].
Proof.
  destruct (send_file_body_total env filepath tr) as (r & tr1 & Hrun & Hr & Hcl).
  unfold send_file. rewrite Hrun.
  destruct r as [b|e|]; [| |done].
  - exists b, tr1. by rewrite <- app_assoc.
  - destruct e;
      (eexists false, (tr1 ++ [EPrint _]); split;
       [cbv beta iota zeta delta [bind cl_print emit modify ret];
        by rewrite <- !app_assoc|];
       no_close).
Qed.

(** ** The header survives [encode] and [decode] *)

Ltac n_arith := zify; Z.to_euclidean_division_equations; lia.

Lemma to_N_byte_of n : (n < 256)%N -> Byte.to_N (byte_of n) = n.
Proof.
  intros Hn. unfold byte_of. destruct (Byte.of_N n) as [y|] eqn:E.
  - by apply Byte.to_of_N.
  - apply Byte.of_N_None_iff in E. lia.
Qed.

Ltac n_cases :=
  repeat match goal with
         | |- context [N.ltb ?a ?b] => destruct (N.ltb_spec a b); try (exfalso; n_arith)
         | |- context [N.leb ?a ?b] => destruct (N.leb_spec a b); try (exfalso; n_arith)
         end.

Lemma utf8_decode_encode1 c b rest :
  utf8_encode1 c = Some b ->
  utf8_decode (b ++ rest) = cons c <$> utf8_decode rest.
Proof.
  unfold utf8_encode1.
  destruct (N.ltb_spec c 128) as [H1|H1].
  { intros [= <-]. cbn [app utf8_decode]. rewrite to_N_byte_of by lia.
    by rewrite (proj2 (N.ltb_lt _ _) H1). }
  destruct (N.ltb_spec c 2048) as [H2|H2].
  { intros [= <-]. cbn [app utf8_decode]. unfold is_cont.
    rewrite !to_N_byte_of by n_arith. n_cases. cbn [andb]. do 2 f_equal. n_arith. }
  destruct (N.ltb_spec c 65536) as [H3|H3].
  { destruct (is_surrogate c) eqn:Hs; [done|]. intros [= <-].
    cbn [app utf8_decode]. unfold is_cont.
    rewrite !to_N_byte_of by n_arith.
    assert (Hc : ((224 + c / 4096 - 224) * 4096 + (128 + (c / 64) mod 64 - 128) * 64
                  + (128 + c mod 64 - 128) = c)%N) by n_arith.
    rewrite Hc, Hs. n_cases. reflexivity. }
  destruct (N.leb_spec c 1114111) as [H4|H4]; [|done].
  intros [= <-]. cbn [app utf8_decode]. unfold is_cont.
  rewrite !to_N_byte_of by n_arith.
  assert (Hc : ((240 + c / 262144 - 240) * 262144
                + (128 + (c / 4096) mod 64 - 128) * 4096
                + (128 + (c / 64) mod 64 - 128) * 64
                + (128 + c mod 64 - 128) = c)%N) by n_arith.
  rewrite Hc. n_cases. reflexivity.
Qed.

Lemma utf8_decode_encode s : forall b,
  utf8_encode s = Some b -> utf8_decode b = Some s.
Proof.
  induction s as [|c s IH]; intros b; cbn [utf8_encode].
  - by intros [= <-].
  - destruct (utf8_encode1 c) as [b1|] eqn:E1; [|done].
    destruct (utf8_encode s) as [bs|] eqn:Es; [|done]. intros [= <-].
    rewrite (utf8_decode_encode1 c b1 bs E1), (IH bs eq_refl). reflexivity.
Qed.

(** ** [int(str(n)) = n] *)

Lemma uint_value_pos d : forall a,
  uint_value (Z.pos a) d = Z.pos (Pos.of_uint_acc d a).
Proof.
  induction d; intros a; cbn [uint_value Pos.of_uint_acc]; try done;
    rewrite <- IHd; f_equal; lia.
Qed.

Lemma uint_value_0 d : uint_value 0 d = Z.of_N (Pos.of_uint d).
Proof.
  induction d; cbn [uint_value Pos.of_uint];
    [done|exact IHd|apply (uint_value_pos d)..].
Qed.

Lemma digits_of_uint d :
  Forall (fun c => is_ascii_digit c = true) (s_ (NilEmpty.string_of_uint d)).
Proof. induction d; cbn; constructor; done. Qed.

Lemma scan_uint sp dg d : forall acc,
  scan_digits acc false (map (classify sp dg) (s_ (NilEmpty.string_of_uint d)))
  = Some (uint_value acc d, []).
Proof.
  induction d; intros acc; cbn [NilEmpty.string_of_uint uint_value]; [done|..];
    apply IHd.
Qed.

Lemma uint_nonnil_string d :
  d <> Decimal.Nil -> NilZero.string_of_uint d = NilEmpty.string_of_uint d.
Proof. by destruct d. Qed.

Lemma str_of_int_digits n :
  0 <= n ->
  str_of_int n <> [] /\ Forall (fun c => is_ascii_digit c = true) (str_of_int n).
Proof.
  intros Hn. unfold str_of_int. destruct n as [|p|p]; [| |lia].
  - split; [done|]. repeat constructor.
  - cbn [Z.to_int NilZero.string_of_int].
    pose proof (DecimalPos.Unsigned.to_uint_nonnil p) as Hnil.
    rewrite uint_nonnil_string by done. split; [|apply digits_of_uint].
    destruct (Pos.to_uint p); done.
Qed.

Lemma py_int_str_of_int sp dg n :
  0 <= n -> py_int sp dg (str_of_int n) = Some n.
Proof.
  intros Hn. unfold str_of_int. destruct n as [|p|p]; [done| |lia].
  cbn [Z.to_int NilZero.string_of_int].
  pose proof (DecimalPos.Unsigned.to_uint_nonnil p) as Hnil.
  rewrite uint_nonnil_string by done.
  pose proof (scan_uint sp dg (Pos.to_uint p) 0) as Hscan.
  rewrite uint_value_0, DecimalPos.Unsigned.of_to in Hscan.
  unfold py_int.
  destruct (Pos.to_uint p) as [|d|d|d|d|d|d|d|d|d|d]; [done|..];
    cbn [NilEmpty.string_of_uint] in *;
    match goal with
    | |- context [map ?f (s_ (String.String ?a ?s))] =>
      change (map f (s_ (String.String a s)))
        with (f (Byte.to_N (Ascii.byte_of_ascii a)) :: map f (s_ s)) in *
    end;
    match goal with
    | H : context [classify sp dg ?c] |- _ =>
      let v := eval vm_compute in c in
      change (classify sp dg c) with (CDigit (Z.of_N (v - 48))) in *
    end;
    cbn [drop_while is_CSpace]; rewrite Hscan; reflexivity.
Qed.

(** ** The receiver decodes the header the sender wrote *)

Lemma once_header name digits :
  str_find SEPARATOR name = None ->
  Forall (fun c => is_ascii_digit c = true) digits ->
  once SEPARATOR (name ++ SEPARATOR ++ digits) name digits.
Proof.
  intros Hname Hdigits. split; [done|]. intros a' b' H.
  destruct (lt_eq_lt_dec (length a') (length name)) as [[Hlt|Heq]|Hgt].
  - exfalso. destruct (le_lt_dec (length a' + length SEPARATOR) (length name)) as [Hin|Hov].
    + apply str_find_None in Hname. apply Hname.
      exists a', (drop (length a' + length SEPARATOR) name).
      rewrite <- (take_drop (length a' + length SEPARATOR) name) at 1.
      rewrite (app_assoc a'). f_equal.
      apply (f_equal (take (length a' + length SEPARATOR))) in H.
      rewrite take_app_le in H by done.
      rewrite (app_assoc a'), take_app_length' in H by (rewrite length_app; lia).
      done.
    + symmetry in H. apply (separator_no_overlap _ _ _ _ H); lia.
  - symmetry in H. by apply (app_inj_1 _ _ _ _ Heq) in H as [? _].
  - exfalso.
    destruct (le_lt_dec (length name + length SEPARATOR) (length a')) as [Hin|Hov].
    + apply (f_equal (fun l => l !! length a')) in H.
      rewrite (lookup_app_r name), (lookup_app_r SEPARATOR) in H by lia.
      rewrite (lookup_app_r a'), Nat.sub_diag in H by lia.
      cbn in H. rewrite Forall_forall in Hdigits.
      apply list_elem_of_lookup_2, Hdigits in H. done.
    + apply (separator_no_overlap _ _ _ _ H); lia.
Qed.

Lemma rfind_absent c p : c ∉ p -> rfind c p = -1.
Proof.
  induction p as [|x r IH]; [done|]. rewrite not_elem_of_cons. intros [Hx Hr].
  cbn [rfind]. rewrite (IH Hr). cbn.
  destruct (N.eqb_spec x c); [congruence|done].
Qed.

Lemma basename_idem p : basename (basename p) = basename p.
Proof.
  destruct (basename_spec p) as [H _]. unfold basename at 1.
  by rewrite (rfind_absent _ _ H).
Qed.

(** What the sender writes as header, the receiver reads back as the
    basename and the size, provided the name does not contain the separator
    and can be encoded. *)
Lemma decode_sender_header sp dg filepath n header :
  0 <= n ->
  str_find SEPARATOR (basename filepath) = None ->
  utf8_encode (basename filepath ++ SEPARATOR ++ str_of_int n) = Some header ->
  decode_header sp dg header = Some (basename filepath, n).
Proof.
  intros Hn Hname Henc. apply decode_header_spec.
  destruct (str_of_int_digits n Hn) as [_ Hd].
  exists (basename filepath ++ SEPARATOR ++ str_of_int n), (basename filepath),
    (str_of_int n).
  split; [by apply utf8_decode_encode|]. split; [by apply once_header|].
  split; [by rewrite basename_idem|by apply py_int_str_of_int].
Qed.

(** ** Sender and receiver together *)

Lemma recv_header header segs :
  header <> [] -> (length header <= Z.to_nat BUFFER_SIZE)%nat ->
  recv (Z.to_nat BUFFER_SIZE) (header :: segs) = (header, segs).
Proof.
  intros Hne Hlen. destruct header as [|b header]; [done|]. cbn [recv].
  rewrite take_ge by done. apply Nat.leb_le in Hlen. by rewrite Hlen.
Qed.

Lemma decode_header_nonempty sp dg header p :
  decode_header sp dg header = Some p -> header <> [].
Proof. intros H ->. discriminate H. Qed.





(** ** Further properties of the protocol *)

Lemma handle_client_deny sp dg w :
  sv_deny (snd (handle_client sp dg w)) = sv_deny w.
Proof.
  destruct (decode_header sp dg (fst (recv (Z.to_nat BUFFER_SIZE) (sv_in w))))
    as [[name size]|] eqn:Hd.
  - destruct (handle_client_ready sp dg w name size Hd)
      as (w' & more & Hrun & _ & _ & _ & _ & _ & Hdeny).
    by rewrite Hrun.
  - destruct (handle_client_rejected sp dg w Hd) as (w' & Hrun & _ & _ & _ & Hdeny).
    by rewrite Hrun.
Qed.

(** The receiver accepts the header the sender writes: for a name without
    the separator that can be encoded, and a header that arrives as one
    message, it answers [READY] and goes on with the basename and the size
    the sender had. *)
Theorem sender_header_accepted sp dg filepath n header w segs :
  0 <= n ->
  str_find SEPARATOR (basename filepath) = None ->
  utf8_encode (basename filepath ++ SEPARATOR ++ str_of_int n) = Some header ->
  (length header <= Z.to_nat BUFFER_SIZE)%nat ->
  sv_in w = header :: segs ->
  exists w' more,
    handle_client sp dg w = (Ok tt, w') /\
    sv_out w' = sv_out w ++ b_ "READY" :: more /\
    PReceiving (basename filepath) n ∈ sv_log w'.
Proof.
  intros Hn Hname Henc Hlen Hin.
  pose proof (decode_sender_header sp dg filepath n header Hn Hname Henc) as Hd.
  pose proof (decode_header_nonempty _ _ _ _ Hd) as Hne.
  pose proof (recv_header header segs Hne Hlen) as Hrecv. rewrite <- Hin in Hrecv.
  pose proof (handle_client_ready sp dg w (basename filepath) n) as Hready.
  cbn zeta in Hready. rewrite Hrecv in Hready.
  destruct (Hready Hd) as (w' & more & Hrun & Hout & _ & Hlog & _).
  by exists w', more.
Qed.

Lemma sender_header_accepted_witness :
  let w := fresh_server [b_ "a.txt<SEPARATOR>1024"] in
  exists w' more,
    handle_client no_space no_decimal w = (Ok tt, w') /\
    sv_out w' = b_ "READY" :: more /\
    PReceiving (s_ "a.txt") 1024 ∈ sv_log w'.
Proof.
  apply (sender_header_accepted no_space no_decimal (s_ "d/a.txt") 1024
           (b_ "a.txt<SEPARATOR>1024") (fresh_server [b_ "a.txt<SEPARATOR>1024"]) []).
  - lia.
  - vm_compute. reflexivity.
  - vm_compute. reflexivity.
  - vm_compute. lia.
  - reflexivity.
Defined.

(** Two sessions one after the other that store under the same name: after
    the second, the file holds what the second session received and nothing
    of the first. *)
Theorem sequential_overwrite sp dg w segs1 segs2 filename filesize :
  let w1 := snd (handle_client sp dg (accept segs1 w)) in
  let w2 := snd (handle_client sp dg (accept segs2 w1)) in
  let data := fst (recv (Z.to_nat BUFFER_SIZE) segs2) in
  let avail := concat (snd (recv (Z.to_nat BUFFER_SIZE) segs2)) in
  decode_header sp dg data = Some (filename, filesize) ->
  writable w filename ->
  sv_fs w2 !! filename
  = Some (take (Z.to_nat (Z.min filesize (len avail))) avail).
Proof.
  cbn zeta. intros Hd Hw.
  set (w1 := snd (handle_client sp dg (accept segs1 w))).
  assert (Hw1 : writable (accept segs2 w1) filename).
  { destruct Hw as (H1 & H2 & H3 & H4 & H5). repeat split; try done.
    cbn. unfold w1. by rewrite handle_client_deny. }
  destruct (recv (Z.to_nat BUFFER_SIZE) segs2) as [data rest] eqn:Hrecv.
  cbn [fst snd] in *. unfold decode_header in Hd.
  destruct (utf8_decode data) as [s|] eqn:Hs; [|done].
  destruct (parse_header sp dg s) as [p| |] eqn:Hp; [|done..]. injection Hd as ->.
  destruct (handle_client_accepted sp dg (accept segs2 w1) data rest s filename filesize)
    as (w2 & lines & Hrun & Hfs & _); [done..|].
  rewrite Hrun. cbn [snd]. cbn zeta in Hfs. by rewrite Hfs, lookup_insert_eq.
Qed.

Lemma sequential_overwrite_witness :
  let w := fresh_server [] in
  let segs1 := [b_ "a.txt<SEPARATOR>5"; b_ "hello"] in
  let segs2 := [b_ "x/a.txt<SEPARATOR>2"; b_ "hi"] in
  let w1 := snd (handle_client no_space no_decimal (accept segs1 w)) in
  let w2 := snd (handle_client no_space no_decimal (accept segs2 w1)) in
  sv_fs w2 !! s_ "a.txt" = Some (take (Z.to_nat (Z.min 2 (len (b_ "hi")))) (b_ "hi")).
Proof.
  apply (sequential_overwrite no_space no_decimal (fresh_server [])
           [b_ "a.txt<SEPARATOR>5"; b_ "hello"] [b_ "x/a.txt<SEPARATOR>2"; b_ "hi"]
           (s_ "a.txt") 2).
  - vm_compute. reflexivity.
  - repeat split; try discriminate. vm_compute. intros H.
    repeat (apply elem_of_cons in H as [H|H]; [discriminate|]).
    by apply elem_of_nil in H.
Defined.

(** A header with a negative size is accepted: the receiver answers [READY],
    creates the file empty, reads nothing of the body, and answers
    [FAILED]. *)
Theorem negative_size_session sp dg w filename filesize :
  let data := fst (recv (Z.to_nat BUFFER_SIZE) (sv_in w)) in
  let rest := snd (recv (Z.to_nat BUFFER_SIZE) (sv_in w)) in
  decode_header sp dg data = Some (filename, filesize) ->
  writable w filename ->
  filesize < 0 ->
  exists w',
    handle_client sp dg w = (Ok tt, w') /\
    sv_out w' = sv_out w ++ [b_ "READY"; b_ "FAILED"] /\
    sv_fs w' !! filename = Some [] /\
    concat (sv_in w') = concat rest /\
    sv_log w' = sv_log w ++ [PReceiving filename filesize;
                             PIncomplete 0 filesize; PClosed].
Proof.
  cbn zeta. destruct (recv (Z.to_nat BUFFER_SIZE) (sv_in w)) as [data rest] eqn:Hrecv.
  cbn [fst snd]. intros Hd Hw Hneg. unfold decode_header in Hd.
  destruct (utf8_decode data) as [s|] eqn:Hs; [|done].
  destruct (parse_header sp dg s) as [p| |] eqn:Hp; [|done..]. injection Hd as ->.
  destruct (handle_client_accepted sp dg w data rest s filename filesize)
    as (w' & lines & Hrun & Hfs & Hout & _ & Hin & Hlog & Hall & Hlost & _); [done..|].
  cbn zeta in *.
  assert (Hn : Z.to_nat (Z.min filesize (len (concat rest))) = 0%nat) by lia.
  unfold confirmation_of, verdict_line, complete in *.
  rewrite bool_decide_eq_false_2 in * by lia. rewrite Hn in *.
  assert (Hlines : lines = []).
  { destruct lines as [|l lines]; [done|]. exfalso.
    apply Forall_cons in Hall as [[->|(b & -> & Hb)] _]; [|lia].
    assert (len (concat rest) < filesize) by (apply Hlost, list_elem_of_here).
    unfold len in *. lia. }
  exists w'. rewrite Hfs, lookup_insert_eq, Hin, Hlog, Hlines. done.
Qed.

Lemma negative_size_session_witness :
  let w := fresh_server [b_ "f<SEPARATOR>-5"; b_ "hello"] in
  exists w',
    handle_client no_space no_decimal w = (Ok tt, w') /\
    sv_out w' = [b_ "READY"; b_ "FAILED"] /\
    sv_fs w' !! s_ "f" = Some [] /\
    concat (sv_in w') = concat [b_ "hello"] /\
    sv_log w' = [PReceiving (s_ "f") (-5); PIncomplete 0 (-5); PClosed].
Proof.
  apply (negative_size_session no_space no_decimal
           (fresh_server [b_ "f<SEPARATOR>-5"; b_ "hello"]) (s_ "f") (-5)).
  - vm_compute. reflexivity.
  - repeat split; try discriminate. vm_compute. intros H.
    repeat (apply elem_of_cons in H as [H|H]; [discriminate|]).
    by apply elem_of_nil in H.
  - lia.
Defined.

(** ** [int()] against the grammar of its literals *)

Lemma digit_run_head ds : digit_run ds -> exists d r, ds = CDigit d :: r.
Proof. intros [d|d ds' _|d ds' _]; by eexists _, _. Qed.

Lemma scan_digits_run ds : digit_run ds -> forall acc rest,
  ends_run rest ->
  scan_digits acc false (ds ++ rest) = Some (fold_left add_digit ds acc, rest).
Proof.
  induction 1 as [d|d ds Hds IH|d ds Hds IH]; intros acc rest Hrest.
  - cbn. destruct rest as [|[] rest]; done.
  - cbn. by apply IH.
  - destruct (digit_run_head ds Hds) as (d' & r & ->).
    specialize (IH (10 * acc + d) rest Hrest). cbn in *. exact IH.
Qed.

Lemma scan_digits_inv n : forall cs acc d v rest,
  (length cs <= n)%nat ->
  scan_digits acc false (CDigit d :: cs) = Some (v, rest) ->
  exists ds, CDigit d :: cs = ds ++ rest /\ digit_run ds /\
             v = fold_left add_digit ds acc /\ ends_run rest.
Proof.
  induction n as [|n IH]; intros cs acc d v rest Hlen Hscan.
  - destruct cs; [|cbn in Hlen; lia]. cbn in Hscan. injection Hscan as <- <-.
    exists [CDigit d]. repeat split; constructor.
  - cbn [scan_digits] in Hscan. destruct cs as [|c cs].
    { cbn in Hscan. injection Hscan as <- <-.
      exists [CDigit d]. repeat split; constructor. }
    destruct c as [| | | |d'|];
      try (cbn in Hscan; injection Hscan as <- <-;
           exists [CDigit d]; repeat split; constructor).
    + cbn [scan_digits] in Hscan. destruct cs as [|c2 cs]; [done|].
      destruct c2 as [| | | |d2|]; try done.
      destruct (IH cs (10 * acc + d) d2 v rest) as (ds & Hds & Hrun & Hv & Hrest).
      { cbn in Hlen. lia. }
      { exact Hscan. }
      exists (CDigit d :: CUnder :: ds). split; [by rewrite Hds|].
      split; [by constructor|done].
    + destruct (IH cs (10 * acc + d) d' v rest) as (ds & Hds & Hrun & Hv & Hrest).
      { cbn in Hlen. lia. }
      { exact Hscan. }
      exists (CDigit d :: ds). split; [by rewrite Hds|].
      split; [by constructor|done].
Qed.

Lemma drop_while_spaces cs :
  exists ws, cs = ws ++ drop_while is_CSpace cs /\ Forall (fun c => c = CSpace) ws.
Proof.
  induction cs as [|c cs (ws & Hws & Hall)]; [by exists []|].
  cbn [drop_while]. destruct c; try (by exists []).
  exists (CSpace :: ws). cbn. split; [by rewrite <- Hws|by constructor].
Qed.

Lemma drop_while_app_spaces ws r :
  Forall (fun c => c = CSpace) ws ->
  match r with CSpace :: _ => False | _ => True end ->
  drop_while is_CSpace (ws ++ r) = r.
Proof.
  intros Hws Hr. induction Hws as [|c ws -> _ IH]; [|exact IH].
  cbn. destruct r as [|[] r]; done.
Qed.

Lemma forallb_spaces cs :
  forallb is_CSpace cs = true <-> Forall (fun c => c = CSpace) cs.
Proof.
  induction cs as [|c cs IH]; cbn; [split; [constructor|done]|].
  rewrite andb_true_iff, IH, Forall_cons.
  destruct c; cbn; split; intros [H1 H2]; try discriminate; by split.
Qed.

Ltac finish_sign H :=
  first [ done
        | destruct (scan_digits 0 false _) as [[? rest]|]; [|done];
          destruct (forallb is_CSpace rest); [|done];
          rewrite <- H; f_equal; lia ].

(** [int()] accepts exactly the literals of the grammar, with their value. *)
Theorem py_int_grammar sp dg s z :
  py_int sp dg s = Some z <-> int_literal (map (classify sp dg) s) z.
Proof.
  unfold py_int. set (cs := map (classify sp dg) s). clearbody cs. split.
  - destruct (drop_while_spaces cs) as (ws1 & Hcs & Hws1).
    set (cs1 := drop_while is_CSpace cs) in *. clearbody cs1. intros H.
    assert (Hgen : forall sg sgn cs2,
              sign_of sg sgn -> cs1 = sg ++ cs2 ->
              match cs2 with
              | CDigit _ :: _ =>
                match scan_digits 0 false cs2 with
                | Some (v, rest) =>
                  if forallb is_CSpace rest then Some (sgn * v) else None
                | None => None
                end
              | _ => None
              end = Some z -> int_literal cs z).
    { intros sg sgn cs2 Hsg Hcs1 Hz.
      destruct cs2 as [|[| | | |d|] cs3]; try done.
      destruct (scan_digits 0 false (CDigit d :: cs3)) as [[v rest]|] eqn:Hscan;
        [|done].
      destruct (forallb is_CSpace rest) eqn:Hrest; [|done]. injection Hz as <-.
      destruct (scan_digits_inv (length cs3) cs3 0 d v rest (le_n _) Hscan)
        as (ds & Hds & Hrun & Hv & _).
      exists ws1, sg, ds, rest, sgn. rewrite Hcs, Hcs1, Hds.
      split; [done|]. split; [done|]. split; [by apply forallb_spaces|].
      split; [done|]. split; [done|]. by rewrite Hv. }
    destruct cs1 as [|c cs2].
    { done. }
    destruct c.
    + done.
    + apply (Hgen [CPlus] 1 cs2); [constructor|done|].
      destruct cs2 as [|[] ?]; finish_sign H.
    + apply (Hgen [CMinus] (-1) cs2); [constructor|done|].
      destruct cs2 as [|[] ?]; finish_sign H.
    + done.
    + apply (Hgen [] 1 (CDigit d :: cs2)); [constructor|done|].
      finish_sign H.
    + done.
  - intros (ws1 & sg & ds & ws2 & sgn & -> & Hws1 & Hws2 & Hsg & Hrun & ->).
    destruct (digit_run_head ds Hrun) as (d & r & Hds).
    assert (Hends : ends_run ws2) by (destruct Hws2 as [|? ? -> _]; done).
    pose proof (scan_digits_run ds Hrun 0 ws2 Hends) as Hscan.
    apply forallb_spaces in Hws2.
    rewrite drop_while_app_spaces; [|done|by destruct Hsg; rewrite ?Hds].
    destruct Hsg; cbn [app]; rewrite Hds in *; cbn [app] in *;
      rewrite Hscan, Hws2; f_equal; unfold run_value; lia.
Qed.

(** ** The receiver: what one connection is answered *)

Lemma handle_client_open_fails sp dg w data rest s filename filesize e :
  recv (Z.to_nat BUFFER_SIZE) (sv_in w) = (data, rest) ->
  utf8_decode data = Some s ->
  parse_header sp dg s = Ok (filename, filesize) ->
  (forall w0, sv_deny w0 = sv_deny w -> open_wb filename w0 = (Raise e, w0)) ->
  exists w',
    handle_client sp dg w = (Ok tt, w') /\
    sv_out w' = sv_out w ++ [b_ "READY"] /\
    sv_fs w' = sv_fs w /\ sv_in w' = rest /\ sv_closed w' = true /\
    sv_log w' = sv_log w ++ [PReceiving filename filesize;
                             if is_ValueError e then PParseError else PTransferError;
                             PClosed] /\
    sv_deny w' = sv_deny w.
Proof.
  intros Hrecv Hs Hp Hopen.
  pose proof (parse_header_nonempty _ _ _ _ _ Hp) as Hne.
  unfold handle_client, try_except_finally, serve_body.
  unfold bind at 1. unfold sv_recv at 1. rewrite Hrecv.
  unfold bind at 1. unfold decode, of_option. rewrite Hs. unfold ret at 1.
  destruct s as [|c s]; [done|].
  unfold bind at 1. rewrite Hp.
  unfold bind at 1, sv_print at 1, modify at 1.
  unfold bind at 1, sv_send at 1, modify at 1.
  unfold bind at 1. rewrite Hopen by reflexivity.
  destruct (is_ValueError e); eexists; (split; [reflexivity|]); world_simpl;
    rewrite <- !app_assoc; done.
Qed.

Lemma open_wb_raises w filename :
  ~ writable w filename ->
  exists e, forall w0, sv_deny w0 = sv_deny w -> open_wb filename w0 = (Raise e, w0).
Proof.
  intros Hnw. unfold open_wb.
  destruct (bool_decide (filename = [])) eqn:E1; [by eexists|].
  destruct (bool_decide (filename = s_ "." \/ filename = s_ "..")) eqn:E2;
    [by eexists|].
  destruct (bool_decide (0%N ∈ filename)) eqn:E3; [by eexists|].
  destruct (sv_deny w filename) as [e|] eqn:E4.
  - exists e. intros w0 ->. by rewrite E4.
  - exfalso. apply Hnw. apply bool_decide_eq_false in E1, E2, E3.
    unfold writable. tauto.
Qed.

Lemma writable_dec w filename : writable w filename \/ ~ writable w filename.
Proof.
  destruct (open_wb_cases w filename) as [H|[e He]]; [by left|right].
  intros Hw. rewrite (open_wb_ok _ _ Hw) in He. discriminate.
Qed.

(** The peer closes without sending anything: the receiver prints that no
    data came, sends nothing, touches no file and closes the connection. *)
Theorem no_data_session sp dg w :
  concat (sv_in w) = [] ->
  exists w',
    handle_client sp dg w = (Ok tt, w') /\
    sv_out w' = sv_out w /\ sv_fs w' = sv_fs w /\ sv_closed w' = true /\
    sv_log w' = sv_log w ++ [PNoData; PClosed].
Proof.
  intros Hempty. unfold handle_client, try_except_finally, serve_body.
  unfold bind at 1. unfold sv_recv at 1. rewrite (recv_eof _ _ Hempty).
  eexists. split; [reflexivity|]. world_simpl. by rewrite <- app_assoc.
Qed.

Lemma no_data_session_witness :
  exists w',
    handle_client no_space no_decimal (fresh_server [[]; []]) = (Ok tt, w') /\
    sv_out w' = [] /\ sv_fs w' = ∅ /\ sv_closed w' = true /\
    sv_log w' = [PNoData; PClosed].
Proof.
  apply (no_data_session no_space no_decimal (fresh_server [[]; []])). reflexivity.
Defined.

(** A header is accepted but the file cannot be opened for writing (the
    name is empty, [.] or [..], has a NUL character, or the operating system
    refuses): [READY] has already been sent, nothing follows it, nothing is
    read from the body, no file changes, and the connection is closed. *)
Theorem unwritable_name_session sp dg w filename filesize :
  let data := fst (recv (Z.to_nat BUFFER_SIZE) (sv_in w)) in
  let rest := snd (recv (Z.to_nat BUFFER_SIZE) (sv_in w)) in
  decode_header sp dg data = Some (filename, filesize) ->
  ~ writable w filename ->
  exists w' line,
    handle_client sp dg w = (Ok tt, w') /\
    sv_out w' = sv_out w ++ [b_ "READY"] /\
    sv_fs w' = sv_fs w /\ sv_in w' = rest /\ sv_closed w' = true /\
    sv_log w' = sv_log w ++ [PReceiving filename filesize; line; PClosed] /\
    (line = PParseError \/ line = PTransferError).
Proof.
  cbn zeta. destruct (recv (Z.to_nat BUFFER_SIZE) (sv_in w)) as [data rest] eqn:Hrecv.
  cbn [fst snd]. intros Hd Hnw. unfold decode_header in Hd.
  destruct (utf8_decode data) as [s|] eqn:Hs; [|done].
  destruct (parse_header sp dg s) as [p| |] eqn:Hp; [|done..]. injection Hd as ->.
  destruct (open_wb_raises w filename Hnw) as [e He].
  destruct (handle_client_open_fails sp dg w data rest s filename filesize e)
    as (w' & Hrun & Hout & Hfs & Hin & Hcl & Hlog & _); [done..|].
  exists w', (if is_ValueError e then PParseError else PTransferError).
  repeat split; try done. destruct (is_ValueError e); by auto.
Qed.

Lemma unwritable_name_session_witness :
  let w := fresh_server [b_ "dir/<SEPARATOR>5"; b_ "hello"] in
  exists w' line,
    handle_client no_space no_decimal w = (Ok tt, w') /\
    sv_out w' = [b_ "READY"] /\
    sv_fs w' = ∅ /\ sv_in w' = [b_ "hello"] /\ sv_closed w' = true /\
    sv_log w' = [PReceiving [] 5; line; PClosed] /\
    (line = PParseError \/ line = PTransferError).
Proof.
  apply (unwritable_name_session no_space no_decimal
           (fresh_server [b_ "dir/<SEPARATOR>5"; b_ "hello"]) [] 5).
  - vm_compute. reflexivity.
  - intros (H & _). by apply H.
Defined.

(** Whatever arrives, the receiver sends nothing, or [READY], or [READY] and
    then one of [SUCCESS] and [FAILED].  It sends [SUCCESS] exactly when the
    header was accepted, the file could be opened, and at least [filesize]
    bytes (a size that is not negative) arrived after the header; the file
    then holds exactly the first [filesize] of those bytes, and the bytes
    after them are left unread on the stream. *)
Theorem confirmation_sound sp dg w :
  let data := fst (recv (Z.to_nat BUFFER_SIZE) (sv_in w)) in
  let avail := concat (snd (recv (Z.to_nat BUFFER_SIZE) (sv_in w))) in
  let w' := snd (handle_client sp dg w) in
  exists toks,
    sv_out w' = sv_out w ++ toks /\
    (toks = [] \/ toks = [b_ "READY"] \/ toks = [b_ "READY"; b_ "SUCCESS"]
     \/ toks = [b_ "READY"; b_ "FAILED"]) /\
    (toks = [b_ "READY"; b_ "SUCCESS"] <->
     exists filename filesize,
       decode_header sp dg data = Some (filename, filesize) /\
       writable w filename /\ 0 <= filesize <= len avail) /\
    (forall filename filesize,
       decode_header sp dg data = Some (filename, filesize) ->
       toks = [b_ "READY"; b_ "SUCCESS"] ->
       sv_fs w' !! filename = Some (take (Z.to_nat filesize) avail) /\
       concat (sv_in w') = drop (Z.to_nat filesize) avail).
Proof.
  cbn zeta. destruct (recv (Z.to_nat BUFFER_SIZE) (sv_in w)) as [data rest] eqn:Hrecv.
  cbn [fst snd].
  destruct (decode_header sp dg data) as [[filename filesize]|] eqn:Hd.
  - unfold decode_header in Hd.
    destruct (utf8_decode data) as [s|] eqn:Hs; [|done].
    destruct (parse_header sp dg s) as [p| |] eqn:Hp; [|done..]. injection Hd as ->.
    destruct (writable_dec w filename) as [Hw|Hnw].
    + destruct (handle_client_accepted sp dg w data rest s filename filesize)
        as (w' & lines & Hrun & Hfs & Hout & _ & Hin & _); [done..|].
      cbn zeta in *. rewrite Hrun. cbn [snd].
      exists [b_ "READY"; confirmation_of filesize (concat rest)].
      split; [done|]. unfold confirmation_of, complete.
      destruct (bool_decide (0 <= filesize <= len (concat rest))) eqn:Hc.
      * apply bool_decide_eq_true in Hc. split; [by auto|]. split.
        -- split; [|done]. intros _. by exists filename, filesize.
        -- intros ? ? [= <- <-] _.
           replace (Z.to_nat (Z.min filesize (len (concat rest))))
             with (Z.to_nat filesize) in * by lia.
           split; [by rewrite Hfs, lookup_insert_eq|done].
      * apply bool_decide_eq_false in Hc. split; [by auto|]. split; [|done].
        split; [done|]. intros (? & ? & [= <- <-] & _ & ?). done.
    + destruct (open_wb_raises w filename Hnw) as [e He].
      destruct (handle_client_open_fails sp dg w data rest s filename filesize e)
        as (w' & Hrun & Hout & _); [done..|].
      rewrite Hrun. cbn [snd]. exists [b_ "READY"]. split; [done|].
      split; [by auto|]. split; [|done]. split; [done|].
      intros (? & ? & [= <- <-] & ? & _). done.
  - pose proof (handle_client_rejected sp dg w) as Hrej. cbn zeta in Hrej.
    rewrite Hrecv in Hrej. destruct (Hrej Hd) as (w' & Hrun & Hout & _).
    rewrite Hrun. cbn [snd]. exists []. rewrite app_nil_r.
    split; [done|]. split; [by auto|]. split; [|done]. split; [done|].
    intros (? & ? & ? & _). done.
Qed.

(** ** The sender: when it reports success, and how it fails *)

Section SenderOutcomes.
Context (env : client_env).

(** A loop that returns has sent every chunk. *)
Lemma stream_loop_ok_inv rounds : forall filesize file bytes_sent tr v tr1,
  (length file < rounds)%nat ->
  stream_loop env rounds filesize file bytes_sent tr = (Ok v, tr1) ->
  v = bytes_sent + len file /\
  tr1 = tr ++ stream_events filesize bytes_sent (chunks_from rounds file) /\
  (filesize <> 0 \/ file = []).
Proof.
  induction rounds as [|rounds IH]; intros filesize file bytes_sent tr v tr1 Hlen;
    [lia|].
  cbn [stream_loop chunks_from].
  destruct (take (Z.to_nat BUFFER_SIZE) file) as [|b c] eqn:E.
  - apply (take_nil_inv (Z.to_nat BUFFER_SIZE)) in E as ->; [|unfold BUFFER_SIZE; lia].
    unfold ret. intros [= <- <-]. unfold len. cbn.
    rewrite Z.add_0_r, app_nil_r. by auto.
  - unfold bind at 1. unfold cl_send.
    destruct (net_send env _) as [e|]; [done|].
    destruct (filesize =? 0) eqn:Hz; [done|]. apply Z.eqb_neq in Hz.
    unfold bind at 1, ret at 1. unfold bind at 1, emit at 1, modify at 1.
    intros Hrun. apply IH in Hrun as (-> & -> & _).
    2:{ rewrite length_drop. destruct file; [done|]. cbn in *. unfold BUFFER_SIZE. lia. }
    split; [|split; [|by left]].
    + rewrite <- (take_drop (Z.to_nat BUFFER_SIZE) file) at 2.
      rewrite E. unfold len. rewrite length_app. lia.
    + cbn [stream_events]. rewrite <- !app_assoc. reflexivity.
Qed.

(** The [k]-th chunk (counted from 0) is the first whose [send] raises: the
    chunks before it were sent, it was tried, and nothing follows. *)
Lemma stream_loop_send_fails rounds : forall filesize file bytes_sent tr k e,
  filesize <> 0 ->
  (k < length (chunks_from rounds file))%nat ->
  (forall j, (j < k)%nat -> net_send env (length (filter is_send tr) + j) = None) ->
  net_send env (length (filter is_send tr) + k) = Some e ->
  exists tr1,
    stream_loop env rounds filesize file bytes_sent tr = (Raise e, tr ++ tr1) /\
    sends tr1 = take (S k) (chunks_from rounds file) /\
    filter is_recv tr1 = [] /\ filter is_close tr1 = [].
Proof.
  induction rounds as [|rounds IH]; intros filesize file bytes_sent tr k e Hz Hk Hok Hfail;
    [cbn in Hk; lia|].
  cbn [stream_loop chunks_from] in *.
  destruct (take (Z.to_nat BUFFER_SIZE) file) as [|b c] eqn:E; [cbn in Hk; lia|].
  unfold bind at 1. unfold cl_send. destruct k as [|k].
  - rewrite Nat.add_0_r in Hfail. rewrite Hfail.
    exists [ESend (b :: c)]. rewrite app_nil_r || idtac. by cbn.
  - pose proof (Hok 0%nat ltac:(lia)) as H0. rewrite Nat.add_0_r in H0. rewrite H0.
    apply Z.eqb_neq in Hz as Hz'. rewrite Hz'.
    unfold bind at 1, ret at 1. unfold bind at 1, emit at 1, modify at 1.
    set (tr2 := (tr ++ [ESend (b :: c)]) ++ [EProgress (bytes_sent + len (b :: c)) filesize]).
    assert (Hbase : length (filter is_send tr2) = S (length (filter is_send tr))).
    { unfold tr2. rewrite !filter_app, !length_app.
      change (length (filter is_send [ESend (b :: c)])) with 1%nat.
      change (length (filter is_send [EProgress (bytes_sent + len (b :: c)) filesize]))
        with 0%nat. lia. }
    destruct (IH filesize (drop (Z.to_nat BUFFER_SIZE) file)
                (bytes_sent + len (b :: c)) tr2 k e) as (tr1 & Hrun & Hs & Hr & Hc).
    + done.
    + cbn [length] in Hk. lia.
    + intros j Hj. rewrite Hbase. replace (S (length (filter is_send tr)) + j)%nat
        with (length (filter is_send tr) + S j)%nat by lia. apply Hok. lia.
    + rewrite Hbase. by replace (S (length (filter is_send tr)) + k)%nat
        with (length (filter is_send tr) + S k)%nat by lia.
    + rewrite Hrun.
      exists (ESend (b :: c) :: EProgress (bytes_sent + len (b :: c)) filesize :: tr1).
      unfold tr2. rewrite <- !app_assoc. cbn [app sends]. rewrite Hs.
      repeat split; done.
Qed.

(** [send_file] returns [True] only after this: the server answered the
    header with [READY], every chunk of the file that was opened has been
    sent, in order and after the header, and the server's next answer was
    [SUCCESS]. *)
Theorem true_only_on_success filepath tr tr' :
  send_file env filepath tr = (Ok true, tr') ->
  let i := length (filter is_recv tr) in
  exists filesize header content ready confirmation,
    fs_getsize env filepath = inr filesize /\
    utf8_encode (basename filepath ++ SEPARATOR ++ str_of_int filesize) = Some header /\
    fs_open env filepath = inr content /\
    net_recv env i = inr ready /\ utf8_decode ready = Some READY /\
    net_recv env (S i) = inr confirmation /\ utf8_decode confirmation = Some SUCCESS /\
    sends (drop (length tr) tr') = header :: chunks content.
Proof.
  unfold send_file.
  destruct (send_file_body env filepath tr) as [r tr1] eqn:Hbody.
  intros H.
  assert (Hr : r = Ok true /\ tr' = tr1 ++ [EClose; EPrint PConnectionClosed]).
  { destruct r as [[]|e|]; [| |destruct e|]; cbn in H; by injection H. }
  clear H. destruct Hr as [-> ->]. cbn zeta. revert Hbody.
  unfold send_file_body.
  unfold bind at 1. unfold cl_connect. unfold bind at 1, emit at 1, modify at 1.
  destruct (net_connect env) as [e|]; [done|]. unfold ret at 1.
  unfold bind at 1. unfold cl_getsize. unfold bind at 1, emit at 1, modify at 1.
  destruct (fs_getsize env filepath) as [e|n] eqn:Hsize; unfold of_sum at 1; [done|].
  unfold ret at 1. unfold bind at 1. unfold encode, of_option.
  destruct (utf8_encode _) as [header|] eqn:Henc; [|done].
  unfold ret at 1. unfold bind at 1. unfold cl_send at 1.
  destruct (net_send env _) as [e|]; [done|].
  unfold bind at 1. unfold cl_recv at 1.
  rewrite !filter_app. cbn [filter]. rewrite !app_nil_r.
  destruct (net_recv env (length (filter is_recv tr))) as [e|ready] eqn:Hr0;
    unfold of_sum at 1; [done|].
  unfold ret at 1. unfold bind at 1. unfold decode at 1, of_option.
  destruct (utf8_decode ready) as [response|] eqn:Hready; [|done].
  unfold ret at 1. destruct (bool_decide (response = READY)) eqn:Hresp; cbn [negb].
  2:{ unfold bind, cl_print, emit, modify, ret. done. }
  apply bool_decide_eq_true in Hresp as ->.
  unfold bind at 1. unfold cl_open_rb. unfold bind at 1, emit at 1, modify at 1.
  destruct (fs_open env filepath) as [e|content] eqn:Hopen; unfold of_sum at 1; [done|].
  unfold ret at 1. unfold bind at 1.
  destruct (stream_loop env (S (length content)) n content 0 _) as [res tr2] eqn:Hloop.
  destruct res as [bytes_sent|e|]; [|done..].
  apply stream_loop_ok_inv in Hloop as (_ & -> & _); [|lia].
  unfold bind at 1. unfold cl_recv at 1.
  rewrite !filter_app, recvs_stream_events. cbn [filter]. rewrite !app_nil_r.
  rewrite length_app. cbn [length]. rewrite Nat.add_1_r.
  destruct (net_recv env (S (length (filter is_recv tr)))) as [e|conf] eqn:Hr1;
    unfold of_sum at 1; [done|].
  unfold ret at 1. unfold bind at 1. unfold decode at 1, of_option.
  destruct (utf8_decode conf) as [confirmation|] eqn:Hconf; [|done].
  unfold ret at 1. destruct (bool_decide (confirmation = SUCCESS)) eqn:Hsucc.
  2:{ unfold bind, cl_print, emit, modify, ret. done. }
  apply bool_decide_eq_true in Hsucc as ->.
  unfold bind, cl_print, emit, modify, ret. intros [= <-].
  exists n, header, content, ready, conf. repeat split; try done.
  rewrite <- !app_assoc. rewrite drop_app_length. cbn [app sends].
  rewrite sends_app, sends_stream_events. cbn. by rewrite app_nil_r.
Qed.

End SenderOutcomes.

Lemma true_only_on_success_witness :
  let env := good_env (s_ "d/a.txt") (b_ "hello") [b_ "READY"; b_ "SUCCESS"] in
  let tr' := snd (send_file env (s_ "d/a.txt") []) in
  exists filesize header content ready confirmation,
    fs_getsize env (s_ "d/a.txt") = inr filesize /\
    utf8_encode (basename (s_ "d/a.txt") ++ SEPARATOR ++ str_of_int filesize)
    = Some header /\
    fs_open env (s_ "d/a.txt") = inr content /\
    net_recv env 0%nat = inr ready /\ utf8_decode ready = Some READY /\
    net_recv env 1%nat = inr confirmation /\
    utf8_decode confirmation = Some SUCCESS /\
    sends tr' = header :: chunks content.
Proof.
  apply (true_only_on_success
           (good_env (s_ "d/a.txt") (b_ "hello") [b_ "READY"; b_ "SUCCESS"])
           (s_ "d/a.txt") []
           (snd (send_file
                   (good_env (s_ "d/a.txt") (b_ "hello") [b_ "READY"; b_ "SUCCESS"])
                   (s_ "d/a.txt") []))).
  vm_compute. reflexivity.
Defined.

Section SenderRuns.
Context (env : client_env).

(** The events of [send_file] up to the streaming loop, when the server
    answers [READY]. *)
Lemma send_file_body_to_loop filepath filesize header content tr :
  net_connect env = None ->
  fs_getsize env filepath = inr filesize ->
  utf8_encode (basename filepath ++ SEPARATOR ++ str_of_int filesize) = Some header ->
  net_send env (length (filter is_send tr)) = None ->
  net_recv env (length (filter is_recv tr)) = inr (b_ "READY") ->
  fs_open env filepath = inr content ->
  send_file_body env filepath tr
  = bind (stream_loop env (S (length content)) filesize content 0)
      (fun _ =>
         bind (cl_recv env) (fun data =>
         bind (decode data) (fun confirmation =>
         if bool_decide (confirmation = SUCCESS)
         then bind (cl_print PSent) (fun _ => ret true)
         else bind (cl_print (PRemoteFailed confirmation)) (fun _ => ret false))))
      (tr ++ [EConnect; EGetSize filepath; ESend header; ERecv; EOpen filepath]).
Proof.
  intros Hconn Hsize Henc Hsend Hr0 Hopen. unfold send_file_body.
  unfold bind at 1. unfold cl_connect. unfold bind at 1, emit at 1, modify at 1.
  rewrite Hconn. unfold ret at 1.
  unfold bind at 1. unfold cl_getsize. unfold bind at 1, emit at 1, modify at 1.
  rewrite Hsize. unfold of_sum at 1, ret at 1.
  unfold bind at 1. unfold encode, of_option. rewrite Henc. unfold ret at 1.
  unfold bind at 1. rewrite cl_send_ok.
  2:{ rewrite !filter_app. cbn. by rewrite !app_nil_r. }
  unfold bind at 1. rewrite (cl_recv_at env (b_ "READY")).
  2:{ rewrite !filter_app. cbn. by rewrite !app_nil_r. }
  unfold bind at 1. unfold decode at 1, of_option.
  change (utf8_decode (b_ "READY")) with (Some READY). unfold ret at 1.
  rewrite bool_decide_eq_true_2 by done. cbn [negb].
  unfold bind at 1. unfold cl_open_rb. unfold bind at 1, emit at 1, modify at 1.
  rewrite Hopen. unfold of_sum at 1, ret at 1.
  rewrite <- !app_assoc. reflexivity.
Qed.

End SenderRuns.

(** A [send] fails in the middle of the file: chunk [k] (counted from 0) is
    the first one whose [send] raises.  Then [send_file] returns [False];
    what it sent or tried to send is the header and the chunks up to that
    one, nothing after it; it does not wait for the server's confirmation;
    and the socket is closed. *)
Theorem send_failure_stops_streaming env filepath filesize header content k e tr :
  net_connect env = None ->
  fs_getsize env filepath = inr filesize ->
  filesize <> 0 ->
  utf8_encode (basename filepath ++ SEPARATOR ++ str_of_int filesize) = Some header ->
  net_recv env (length (filter is_recv tr)) = inr (b_ "READY") ->
  fs_open env filepath = inr content ->
  (k < length (chunks content))%nat ->
  (forall j, (j <= k)%nat -> net_send env (length (filter is_send tr) + j) = None) ->
  net_send env (length (filter is_send tr) + S k) = Some e ->
  exists tr',
    send_file env filepath tr
    = (Ok false, tr ++ tr' ++ [EClose; EPrint PConnectionClosed]) /\
    sends tr' = header :: take (S k) (chunks content) /\
    length (filter is_recv tr') = 1%nat /\
    filter is_close tr' = [].
Proof.
  intros Hconn Hsize Hz Henc Hr0 Hopen Hk Hok Hfail.
  pose proof (Hok 0%nat ltac:(lia)) as H0. rewrite Nat.add_0_r in H0.
  unfold send_file.
  rewrite (send_file_body_to_loop env filepath filesize header content tr) by done.
  set (tr0 := tr ++ [EConnect; EGetSize filepath; ESend header; ERecv; EOpen filepath]).
  assert (Hbase : length (filter is_send tr0) = S (length (filter is_send tr))).
  { unfold tr0. rewrite filter_app, length_app.
    change (length (filter is_send _)) with 1%nat at 2. lia. }
  destruct (stream_loop_send_fails env (S (length content)) filesize content 0 tr0 k e)
    as (tr1 & Hrun & Hs & Hr & Hc).
  - done.
  - exact Hk.
  - intros j Hj. rewrite Hbase.
    replace (S (length (filter is_send tr)) + j)%nat
      with (length (filter is_send tr) + S j)%nat by lia.
    apply Hok. lia.
  - rewrite Hbase.
    by replace (S (length (filter is_send tr)) + k)%nat
      with (length (filter is_send tr) + S k)%nat by lia.
  - unfold bind at 1. rewrite Hrun. unfold tr0.
    destruct e;
      (eexists ([EConnect; EGetSize filepath; ESend header; ERecv; EOpen filepath]
                  ++ tr1 ++ [EPrint _]); split;
       [cbv beta iota zeta delta [bind cl_print emit modify ret];
        by rewrite <- !app_assoc|];
       rewrite !filter_app, Hr, Hc, !sends_app, Hs; cbn; rewrite ?app_nil_r; done).
Qed.

Lemma send_failure_stops_streaming_witness :
  let content := repeat "a"%byte 1500 in
  let env := flaky_env (s_ "a.txt") content 2 in
  exists tr',
    send_file env (s_ "a.txt") []
    = (Ok false, tr' ++ [EClose; EPrint PConnectionClosed]) /\
    sends tr' = b_ "a.txt<SEPARATOR>1500" :: take 2 (chunks content) /\
    length (filter is_recv tr') = 1%nat /\
    filter is_close tr' = [].
Proof.
  apply (send_failure_stops_streaming
           (flaky_env (s_ "a.txt") (repeat "a"%byte 1500) 2) (s_ "a.txt") 1500
           (b_ "a.txt<SEPARATOR>1500") (repeat "a"%byte 1500) 1 BrokenPipeError []).
  - reflexivity.
  - vm_compute. reflexivity.
  - lia.
  - vm_compute. reflexivity.
  - reflexivity.
  - reflexivity.
  - vm_compute. lia.
  - intros j Hj. destruct j as [|[|j]]; [reflexivity..|lia].
  - reflexivity.
Defined.

(** The size is reported as 0 but the file has bytes when it is read: the
    sender sends the first chunk, fails on the progress it computes from
    the size, and returns [False] without sending the rest and without
    waiting for the server's confirmation. *)
Theorem zero_size_nonempty_file env filepath header content tr :
  net_connect env = None ->
  fs_getsize env filepath = inr 0 ->
  utf8_encode (basename filepath ++ SEPARATOR ++ str_of_int 0) = Some header ->
  net_send env (length (filter is_send tr)) = None ->
  net_send env (S (length (filter is_send tr))) = None ->
  net_recv env (length (filter is_recv tr)) = inr (b_ "READY") ->
  fs_open env filepath = inr content ->
  content <> [] ->
  send_file env filepath tr
  = (Ok false,
     tr ++ [EConnect; EGetSize filepath; ESend header; ERecv; EOpen filepath;
            ESend (take (Z.to_nat BUFFER_SIZE) content);
            EPrint PError; EClose; EPrint PConnectionClosed]).
Proof.
  intros Hconn Hsize Henc Hs0 Hs1 Hr0 Hopen Hne.
  unfold send_file.
  rewrite (send_file_body_to_loop env filepath 0 header content tr) by done.
  unfold bind at 1. cbn [stream_loop].
  destruct (take (Z.to_nat BUFFER_SIZE) content) as [|b c] eqn:E.
  { apply (take_nil_inv (Z.to_nat BUFFER_SIZE)) in E; [done|unfold BUFFER_SIZE; lia]. }
  unfold bind at 1. rewrite cl_send_ok.
  2:{ rewrite filter_app, length_app.
      change (length (filter is_send _)) with 1%nat at 2. by rewrite Nat.add_1_r. }
  cbn [Z.eqb]. unfold bind at 1, raise at 1.
  cbv beta iota zeta delta [bind cl_print emit modify ret].
  by rewrite <- !app_assoc.
Qed.

Lemma zero_size_nonempty_file_witness :
  let env :=
    {| net_connect := None; net_send := fun _ => None;
       net_recv := answers_of [b_ "READY"; b_ "SUCCESS"];
       fs_isfile := fun _ => true; fs_access := fun _ => true;
       fs_getsize := fun _ => inr 0; fs_open := fun _ => inr (b_ "late") |} in
  send_file env (s_ "a.log") []
  = (Ok false,
     [EConnect; EGetSize (s_ "a.log"); ESend (b_ "a.log<SEPARATOR>0"); ERecv;
      EOpen (s_ "a.log"); ESend (take (Z.to_nat BUFFER_SIZE) (b_ "late"));
      EPrint PError; EClose; EPrint PConnectionClosed]).
Proof.
  apply (zero_size_nonempty_file
           {| net_connect := None; net_send := fun _ => None;
              net_recv := answers_of [b_ "READY"; b_ "SUCCESS"];
              fs_isfile := fun _ => true; fs_access := fun _ => true;
              fs_getsize := fun _ => inr 0; fs_open := fun _ => inr (b_ "late") |}
           (s_ "a.log") (b_ "a.log<SEPARATOR>0") (b_ "late") []);
    try reflexivity; try discriminate.
Defined.

(** A transfer in which nothing fails, for a size that need not be the
    length of what is read. *)
Lemma send_file_streams env filepath filesize content header tr :
  net_connect env = None ->
  fs_getsize env filepath = inr filesize ->
  (filesize <> 0 \/ content = []) ->
  fs_open env filepath = inr content ->
  (forall i, net_send env i = None) ->
  utf8_encode (basename filepath ++ SEPARATOR ++ str_of_int filesize) = Some header ->
  net_recv env (length (filter is_recv tr)) = inr (b_ "READY") ->
  net_recv env (S (length (filter is_recv tr))) = inr (b_ "SUCCESS") ->
  send_file env filepath tr
  = (Ok true,
     tr ++ [EConnect; EGetSize filepath; ESend header; ERecv; EOpen filepath]
        ++ stream_events filesize 0 (chunks content)
        ++ [ERecv; EPrint PSent; EClose; EPrint PConnectionClosed]).
Proof.
  intros Hconn Hsize Hz Hopen Hsend Henc Hr0 Hr1. unfold send_file.
  rewrite (send_file_body_to_loop env filepath filesize header content tr) by done.
  unfold bind at 1. rewrite stream_loop_spec by (done || lia).
  unfold bind at 1. rewrite (cl_recv_at env (b_ "SUCCESS")).
  2:{ rewrite !filter_app, recvs_stream_events. cbn.
      by rewrite !app_nil_r, length_app, Nat.add_comm. }
  unfold bind at 1. unfold decode at 1, of_option.
  change (utf8_decode (b_ "SUCCESS")) with (Some SUCCESS). unfold ret at 1.
  rewrite bool_decide_eq_true_2 by done.
  unfold bind at 1, cl_print at 1, emit at 1, modify at 1. unfold ret.
  f_equal. unfold chunks. rewrite <- !app_assoc. reflexivity.
Qed.

(** The size is taken before the file is read and not looked at again.  If
    the file has grown in between and every [send] still goes through, the
    sender sends all it reads, the receiver stores the first [filesize]
    bytes and leaves the rest unread, answers [SUCCESS], and [send_file]
    returns [True]. *)
Theorem grown_file_is_cut sp dg env filepath filesize content header w segs tr :
  net_connect env = None ->
  fs_getsize env filepath = inr filesize ->
  0 < filesize <= len content ->
  fs_open env filepath = inr content ->
  (forall i, net_send env i = None) ->
  str_find SEPARATOR (basename filepath) = None ->
  utf8_encode (basename filepath ++ SEPARATOR ++ str_of_int filesize) = Some header ->
  (length header <= Z.to_nat BUFFER_SIZE)%nat ->
  sv_in w = header :: segs ->
  concat segs = concat (chunks content) ->
  writable w (basename filepath) ->
  net_recv env (length (filter is_recv tr)) = inr (b_ "READY") ->
  (forall tok, sv_out (snd (handle_client sp dg w)) = sv_out w ++ [b_ "READY"; tok] ->
               net_recv env (S (length (filter is_recv tr))) = inr tok) ->
  exists tr' w',
    send_file env filepath tr = (Ok true, tr ++ tr') /\
    sends tr' = header :: chunks content /\
    handle_client sp dg w = (Ok tt, w') /\
    sv_out w' = sv_out w ++ [b_ "READY"; b_ "SUCCESS"] /\
    sv_fs w' !! basename filepath = Some (take (Z.to_nat filesize) content) /\
    concat (sv_in w') = drop (Z.to_nat filesize) content.
Proof.
  intros Hconn Hsize Hn Hopen Hsend Hname Henc Hlen Hin Hsegs Hw Hr0 Hr1.
  assert (Hcat : concat segs = content).
  { rewrite Hsegs. apply chunks_from_concat. lia. }
  assert (Hd : decode_header sp dg header = Some (basename filepath, filesize))
    by (apply decode_sender_header; [lia|done..]).
  pose proof (decode_header_nonempty _ _ _ _ Hd) as Hne.
  pose proof (recv_header header segs Hne Hlen) as Hrecv. rewrite <- Hin in Hrecv.
  unfold decode_header in Hd.
  destruct (utf8_decode header) as [s|] eqn:Hs; [|done].
  destruct (parse_header sp dg s) as [p| |] eqn:Hp; [|done..]. injection Hd as ->.
  destruct (handle_client_accepted sp dg w header segs s (basename filepath) filesize)
    as (w' & lines & Hrun & Hfs & Hout & _ & Hrest & _); [done..|].
  cbn zeta in *. rewrite Hcat in *.
  replace (Z.to_nat (Z.min filesize (len content))) with (Z.to_nat filesize) in * by lia.
  unfold confirmation_of, complete in Hout.
  rewrite bool_decide_eq_true_2 in Hout by lia.
  rewrite Hrun in Hr1. cbn [snd] in Hr1. specialize (Hr1 _ Hout).
  rewrite (send_file_streams env filepath filesize content header tr);
    [|done|done|left; lia|done..].
  eexists _, w'. split; [reflexivity|]. split.
  { cbn. by rewrite sends_app, sends_stream_events, app_nil_r. }
  split; [done|]. split; [done|]. split; [|done].
  by rewrite Hfs, lookup_insert_eq.
Qed.

Lemma grown_file_is_cut_witness :
  let env :=
    {| net_connect := None; net_send := fun _ => None;
       net_recv := answers_of [b_ "READY"; b_ "SUCCESS"];
       fs_isfile := fun _ => true; fs_access := fun _ => true;
       fs_getsize := fun _ => inr 3; fs_open := fun _ => inr (b_ "hello") |} in
  let w := fresh_server [b_ "a.log<SEPARATOR>3"; b_ "he"; b_ "llo"] in
  exists tr' w',
    send_file env (s_ "a.log") [] = (Ok true, tr') /\
    sends tr' = b_ "a.log<SEPARATOR>3" :: chunks (b_ "hello") /\
    handle_client no_space no_decimal w = (Ok tt, w') /\
    sv_out w' = [b_ "READY"; b_ "SUCCESS"] /\
    sv_fs w' !! basename (s_ "a.log") = Some (take (Z.to_nat 3) (b_ "hello")) /\
    concat (sv_in w') = drop (Z.to_nat 3) (b_ "hello").
Proof.
  apply (grown_file_is_cut no_space no_decimal
           {| net_connect := None; net_send := fun _ => None;
              net_recv := answers_of [b_ "READY"; b_ "SUCCESS"];
              fs_isfile := fun _ => true; fs_access := fun _ => true;
              fs_getsize := fun _ => inr 3; fs_open := fun _ => inr (b_ "hello") |}
           (s_ "a.log") 3 (b_ "hello") (b_ "a.log<SEPARATOR>3")
           (fresh_server [b_ "a.log<SEPARATOR>3"; b_ "he"; b_ "llo"])
           [b_ "he"; b_ "llo"] []).
  - reflexivity.
  - reflexivity.
  - vm_compute. split; [reflexivity|discriminate].
  - reflexivity.
  - intros i. reflexivity.
  - vm_compute. reflexivity.
  - vm_compute. reflexivity.
  - vm_compute. lia.
  - reflexivity.
  - vm_compute. reflexivity.
  - repeat split; try discriminate. vm_compute. intros H.
    repeat (apply elem_of_cons in H as [H|H]; [discriminate|]).
    by apply elem_of_nil in H.
  - vm_compute. reflexivity.
  - intros tok H. vm_compute in H. injection H as <-. reflexivity.
Defined.

(** ** The receiver: the accept loop *)

(** Whatever arrives on a connection, its session returns with the
    connection closed, and has written no file but the one its header
    names. *)
Lemma handle_client_returns sp dg w :
  exists w' toks,
    handle_client sp dg w = (Ok tt, w') /\
    sv_closed w' = true /\
    sv_out w' = sv_out w ++ toks /\ answer toks /\
    sv_deny w' = sv_deny w /\
    (forall name, ~ names sp dg (sv_in w) name ->
                  sv_fs w' !! name = sv_fs w !! name).
Proof.
  unfold names, answer.
  destruct (recv (Z.to_nat BUFFER_SIZE) (sv_in w)) as [data rest] eqn:Hrecv.
  cbn [fst].
  destruct (decode_header sp dg data) as [[filename filesize]|] eqn:Hd.
  - pose proof Hd as Hd'. unfold decode_header in Hd.
    destruct (utf8_decode data) as [s|] eqn:Hs; [|done].
    destruct (parse_header sp dg s) as [p| |] eqn:Hp; [|done..]. injection Hd as ->.
    destruct (writable_dec w filename) as [Hw|Hnw].
    + destruct (handle_client_accepted sp dg w data rest s filename filesize)
        as (w' & lines & Hrun & Hfs & Hout & Hcl & _ & _ & _ & _ & Hdeny); [done..|].
      cbn zeta in *. exists w', [b_ "READY"; confirmation_of filesize (concat rest)].
      split; [done|]. split; [done|]. split; [done|]. split.
      { unfold confirmation_of. destruct (complete _ _); auto. }
      split; [done|]. intros name Hn. rewrite Hfs. apply lookup_insert_ne.
      intros <-. apply Hn. by exists filesize.
    + destruct (open_wb_raises w filename Hnw) as [e He].
      destruct (handle_client_open_fails sp dg w data rest s filename filesize e)
        as (w' & Hrun & Hout & Hfs & _ & Hcl & _ & Hdeny); [done..|].
      exists w', [b_ "READY"]. rewrite Hfs. auto 10.
  - pose proof (handle_client_rejected sp dg w) as Hrej. cbn zeta in Hrej.
    rewrite Hrecv in Hrej. destruct (Hrej Hd) as (w' & Hrun & Hout & Hfs & Hcl & Hdeny).
    exists w', []. rewrite app_nil_r, Hfs. auto 10.
Qed.

Lemma serve_one_spec sp dg segs s :
  exists s' toks lines,
    serve_one sp dg segs s = (Ok tt, s') /\
    ls_served s' = ls_served s ++ [(toks, true)] /\ answer toks /\
    ls_listening s' = ls_listening s /\
    ls_stdout s' = ls_stdout s ++ lines /\ Forall loop_output lines /\
    sv_deny (ls_world s') = sv_deny (ls_world s) /\
    (forall name, ~ names sp dg segs name ->
                  sv_fs (ls_world s') !! name = sv_fs (ls_world s) !! name).
Proof.
  unfold serve_one.
  destruct (handle_client_returns sp dg (set_log [] (accept segs (ls_world s))))
    as (w' & toks & Hrun & Hcl & Hout & Hans & Hdeny & Hfs).
  rewrite Hrun. cbn in Hout.
  eexists _, toks, _. split; [reflexivity|]. cbn.
  rewrite Hout, Hcl. split; [done|]. split; [done|]. split; [done|].
  split; [reflexivity|]. split.
  { constructor; [done|]. apply Forall_app. split; [|by repeat constructor].
    apply Forall_forall. intros x Hx. apply list_elem_of_fmap in Hx as (? & -> & _).
    done. }
  split; [done|]. intros name Hn. by apply Hfs.
Qed.

Lemma accept_loop_spec sp dg conns : forall s,
  exists s' served lines,
    accept_loop sp dg conns s = (Interrupt, s') /\
    ls_served s' = ls_served s ++ served /\
    length served = length conns /\
    Forall (fun c => answer c.1 /\ c.2 = true) served /\
    ls_listening s' = ls_listening s /\
    ls_stdout s' = ls_stdout s ++ lines /\ Forall loop_output lines /\
    sv_deny (ls_world s') = sv_deny (ls_world s) /\
    (forall name, (forall segs, segs ∈ conns -> ~ names sp dg segs name) ->
                  sv_fs (ls_world s') !! name = sv_fs (ls_world s) !! name).
Proof.
  induction conns as [|segs conns IH]; intros s; cbn [accept_loop].
  - exists s, [], []. rewrite !app_nil_r. by repeat split.
  - destruct (serve_one_spec sp dg segs s)
      as (s1 & toks & l1 & -> & Hserved & Hans & Hlis & Hout & Hl1 & Hdeny & Hfs).
    destruct (IH s1) as (s' & served & l2 & -> & Hserved' & Hlen & Hall & Hlis'
                         & Hout' & Hl2 & Hdeny' & Hfs').
    exists s', ((toks, true) :: served), (l1 ++ l2). split; [done|].
    rewrite Hserved', Hserved, Hout', Hout, Hlis', Hlis, <- !app_assoc. cbn.
    split; [done|]. split; [by rewrite Hlen|]. split; [by constructor|].
    split; [done|]. split; [done|]. split; [by apply Forall_app|].
    split; [by rewrite Hdeny'|].
    intros name Hn. rewrite Hfs', Hfs; [done| |].
    + apply Hn. apply list_elem_of_here.
    + intros segs' Hin. apply Hn. by apply list_elem_of_further.
Qed.

(** A file is written only by a connection whose header names it: a file of
    the server's directory that no header of the run names (after
    [basename]) is, at the end, as it was before, whether the port could be
    bound or not. *)
Theorem unnamed_files_are_kept sp dg bind conns s name :
  (forall segs, segs ∈ conns -> ~ names sp dg segs name) ->
  sv_fs (ls_world (start_server sp dg bind conns s).2) !! name
  = sv_fs (ls_world s) !! name.
Proof.
  intros Hn. unfold start_server. destruct bind as [e|].
  - by destruct (is_OSError e).
  - destruct (accept_loop_spec sp dg conns (ls_print LStarted s))
      as (s' & served & lines & -> & _ & _ & _ & _ & _ & _ & _ & Hfs).
    cbn. by rewrite Hfs.
Qed.

Lemma unnamed_files_are_kept_witness :
  let s := fresh_listener {[ s_ "b.txt" := b_ "old" ]} in
  let conns := [[b_ "d/a.txt<SEPARATOR>2"; b_ "hi"]; [b_ "junk"]; []] in
  sv_fs (ls_world (start_server no_space no_decimal None conns s).2) !! s_ "b.txt"
  = sv_fs (ls_world s) !! s_ "b.txt".
Proof.
  apply (unnamed_files_are_kept no_space no_decimal None
           [[b_ "d/a.txt<SEPARATOR>2"; b_ "hi"]; [b_ "junk"]; []]
           (fresh_listener {[ s_ "b.txt" := b_ "old" ]}) (s_ "b.txt")).
  intros segs Hin [filesize H].
  repeat (apply elem_of_cons in Hin as [->|Hin];
          [vm_compute in H; discriminate|]).
  by apply elem_of_nil in Hin.
Defined.


(** ** The sender: the prompt *)

Lemma drop_while_pad {A} (f : A -> bool) pad s a :
  Forall (fun c => f c = true) pad -> head s = Some a -> f a = false ->
  drop_while f (pad ++ s) = s.
Proof.
  intros Hpad Hh Ha. induction Hpad as [|c pad Hc Hrest IH]; cbn.
  - destruct s as [|x s]; [done|]. injection Hh as ->. cbn. by rewrite Ha.
  - by rewrite Hc.
Qed.

Lemma strip_where_pad f pad1 s pad2 a b :
  Forall (fun c => f c = true) pad1 -> Forall (fun c => f c = true) pad2 ->
  head s = Some a -> f a = false -> last s = Some b -> f b = false ->
  strip_where f (pad1 ++ s ++ pad2) = s.
Proof.
  intros H1 H2 Ha Hfa Hb Hfb. unfold strip_where.
  rewrite (drop_while_pad f pad1 (s ++ pad2) a); [|done| |done].
  2:{ destruct s; [done|]. done. }
  rewrite reverse_app, (drop_while_pad f (reverse pad2) (reverse s) b).
  - apply reverse_involutive.
  - by apply Forall_reverse.
  - by rewrite head_reverse.
  - done.
Qed.

(** A path typed at the prompt reaches the checks as it was meant: bare, or
    wrapped in one pair of double or single quotes, and with white space
    around it, a path that begins and ends with a character that is neither
    white space nor a quote is passed on unchanged, unless what was typed
    reads as one of the words that end the loop. *)
Theorem quoted_path_is_unquoted sp lower pad1 pad2 quotes p a b :
  sp DQUOTE = false -> sp SQUOTE = false ->
  Forall (fun c => sp c = true) pad1 -> Forall (fun c => sp c = true) pad2 ->
  quotes = [] \/ quotes = [DQUOTE] \/ quotes = [SQUOTE] ->
  head p = Some a -> plain sp a -> last p = Some b -> plain sp b ->
  (lower (quotes ++ p ++ quotes) ∉ [s_ "quit"; s_ "exit"; s_ "q"]) ->
  read_path sp lower (pad1 ++ (quotes ++ p ++ quotes) ++ pad2) = Try p.
Proof.
  intros HD HS H1 H2 Hq Ha (Hsa & HaD & HaS) Hb (Hsb & HbD & HbS) Hlow.
  assert (HnD : forall c, c <> DQUOTE -> (DQUOTE =? c)%N = false)
    by (intros c Hc; apply N.eqb_neq; congruence).
  assert (HnS : forall c, c <> SQUOTE -> (SQUOTE =? c)%N = false)
    by (intros c Hc; apply N.eqb_neq; congruence).
  assert (Hplain : forall f, f a = false -> f b = false ->
                             strip_where f p = p).
  { intros f Hfa Hfb.
    rewrite <- (strip_where_pad f [] p [] a b) at 2 by done.
    by rewrite app_nil_r. }
  assert (Hwrap : forall f q, f q = true -> f a = false -> f b = false ->
                              strip_where f ([q] ++ p ++ [q]) = p).
  { intros f q Hfq Hfa Hfb. apply (strip_where_pad f [q] p [q] a b); auto. }
  unfold read_path.
  assert (Hstrip : exists x y, head (quotes ++ p ++ quotes) = Some x /\ sp x = false /\
                               last (quotes ++ p ++ quotes) = Some y /\ sp y = false).
  { destruct Hq as [-> | [-> | ->]].
    - exists a, b. rewrite app_nil_r. cbn [app]. auto.
    - exists DQUOTE, DQUOTE. cbn [app head]. rewrite app_comm_cons, last_snoc. auto.
    - exists SQUOTE, SQUOTE. cbn [app head]. rewrite app_comm_cons, last_snoc. auto. }
  destruct Hstrip as (x & y & Hx & Hsx & Hy & Hsy).
  rewrite (strip_where_pad sp pad1 _ pad2 x y) by done.
  rewrite bool_decide_eq_false_2 by done.
  destruct (quotes ++ p ++ quotes) as [|c s] eqn:E; [done|]. rewrite <- E.
  f_equal. destruct Hq as [-> | [-> | ->]].
  - rewrite app_nil_r. cbn [app]. rewrite !Hplain; auto.
  - rewrite (Hwrap (N.eqb DQUOTE) DQUOTE), Hplain; auto.
  - rewrite <- (Hwrap (N.eqb SQUOTE) SQUOTE) at 2; auto.
    f_equal.
    rewrite <- (strip_where_pad (N.eqb DQUOTE) [] ([SQUOTE] ++ p ++ [SQUOTE]) []
                  SQUOTE SQUOTE) at 2; auto.
    + by rewrite app_nil_r.
    + cbn [app]. by rewrite app_comm_cons, last_snoc.
Qed.

Lemma quoted_path_is_unquoted_witness :
  read_path (N.eqb 32) (fun s => s)
    (s_ "  " ++ ([DQUOTE] ++ s_ "d/my file.txt" ++ [DQUOTE]) ++ s_ " ")
  = Try (s_ "d/my file.txt").
Proof.
  apply (quoted_path_is_unquoted (N.eqb 32) (fun s => s) (s_ "  ") (s_ " ")
           [DQUOTE] (s_ "d/my file.txt") 100%N 116%N).
  - reflexivity.
  - reflexivity.
  - vm_compute. repeat constructor.
  - vm_compute. repeat constructor.
  - by right; left.
  - vm_compute. reflexivity.
  - by repeat split.
  - vm_compute. reflexivity.
  - by repeat split.
  - vm_compute. intros H.
    repeat (apply elem_of_cons in H as [H|H]; [discriminate|]).
    by apply elem_of_nil in H.
Defined.

(** ** The two tokens of an empty file in one read *)



(** ** [send_file] on a strict standard output *)

(** Where the path can be printed, the two models of [send_file] agree. *)
Lemma send_file_strict_printable env filepath tr :
  is_Some (utf8_encode filepath) ->
  send_file_strict env filepath tr = send_file env filepath tr.
Proof.
  intros [b Hb]. unfold send_file_strict, send_file, cl_print_quoting.
  destruct (send_file_body env filepath tr) as [[v|e|] tr1]; [done| |done].
  destruct e; try done; unfold bind at 1 2, encode, of_option; by rewrite Hb.
Qed.

(** On a strict standard output [send_file] returns a Boolean or raises
    [UnicodeEncodeError]; it raises only for a path that cannot be printed
    and after [FileNotFoundError] or [PermissionError] was raised inside the
    [try].  The socket is closed in every case, once, at the end. *)
Lemma send_file_strict_outcomes env filepath tr :
  exists r tr',
    send_file_strict env filepath tr
    = (r, tr ++ tr' ++ [EClose; EPrint PConnectionClosed]) /\
    filter is_close tr' = [] /\
    ((exists b, r = Ok b) \/
     r = Raise UnicodeEncodeError /\ utf8_encode filepath = None /\
     exists e, (e = FileNotFoundError \/ e = PermissionError) /\
               send_file_body env filepath tr = (Raise e, tr ++ tr')).
Proof.
  destruct (send_file_body_total env filepath tr) as (r0 & tr0 & Hbody & Hr0 & Hnc).
  unfold send_file_strict, cl_print_quoting. rewrite Hbody.
  destruct r0 as [v|e|]; [| |done].
  { exists (Ok v), tr0. split; [by rewrite <- app_assoc|]. split; [done|]. left. eauto. }
  destruct e;
    try (eexists (Ok false), (tr0 ++ [EPrint _]); split;
         [cbv beta iota zeta delta [bind cl_print emit modify ret];
          by rewrite <- !app_assoc|];
         split; [by rewrite filter_app, Hnc|left; eauto]).
  all: unfold bind at 1 2; unfold encode, of_option;
    destruct (utf8_encode filepath) as [bs|] eqn:Henc.
  all: try (eexists (Ok false), (tr0 ++ [EPrint _]); split;
            [cbv beta iota zeta delta [bind cl_print emit modify ret];
             by rewrite <- !app_assoc|];
            split; [by rewrite filter_app, Hnc|left; eauto]).
  all: exists (Raise UnicodeEncodeError), tr0; split;
    [unfold raise; by rewrite <- !app_assoc|]; split; [done|]; right;
    split; [done|]; split; [done|]; eexists; split; [|reflexivity]; auto.
Qed.

(** C10, the failing input.  The path [\udcff.txt] names no file and the
    standard output is strict UTF-8.  [getsize] raises [FileNotFoundError];
    the clause of line 107 prints the path, which raises
    [UnicodeEncodeError] inside the clause; the [finally] closes the socket,
    and the exception leaves [send_file]: no Boolean is returned.  Nothing
    was sent. *)
Theorem unprintable_path_escapes :
  utf8_encode surrogate_path = None /\
  send_file_body no_file_env surrogate_path []
  = (Raise FileNotFoundError, [EConnect; EGetSize surrogate_path]) /\
  send_file_strict no_file_env surrogate_path []
  = (Raise UnicodeEncodeError,
     [EConnect; EGetSize surrogate_path; EClose; EPrint PConnectionClosed]).
Proof. repeat split; vm_compute; reflexivity. Qed.
